(** * repoart: the rolling-window remapper (src/remap-rolling.js, final variant)

    A shallow embedding of [remap-rolling.js] ("centered, column-aligned,
    UTC-safe"), the second script of src/remap-rolling.js (lines 114-249),
    and the properties its specification states about it.

    JavaScript numbers are modelled as [Z]: every number the script computes
    is an integer far below 2^53, where IEEE doubles are exact.  Strings are
    lists of UTF-16 code units.  The wall clock is an explicit argument. *)

From Stdlib Require Import ZArith NArith List Bool Lia String Ascii DecimalString.
From Equations Require Import Equations.
Import ListNotations.
Open Scope Z_scope.

(** ** The calendar grid (lines 159-160, 195-219) *)

Module Grid.

(** [{ col, row }] as built by [toColRow]. *)
Record ColRow : Set := mkColRow { col : Z; row : Z }.

(** [i => ({ col: Math.floor(i / 7), row: i % 7 })].  [Math.floor] of the
    real quotient is [Z.div]; JavaScript's [%] truncates toward zero and
    is [Z.rem]. *)
Definition toColRow (i : Z) : ColRow :=
  {| col := i / 7; row := Z.rem i 7 |}.

(** [(c, r) => c * 7 + r]. *)
Definition fromColRow (c r : Z) : Z := c * 7 + r.

Definition GRID_WEEKS : Z := 53.
Definition rightmostCol : Z := GRID_WEEKS - 1.

(** [Math.min(...xs)] and [Math.max(...xs)] on a non-empty array, given as
    its first element and the rest. *)
Definition mathMin (x : Z) (xs : list Z) : Z := fold_left Z.min xs x.
Definition mathMax (x : Z) (xs : list Z) : Z := fold_left Z.max xs x.

(** Line 209: [Math.floor((GRID_WEEKS - width) / 2) - minCol]. *)
Definition centerShift (minCol width : Z) : Z :=
  (GRID_WEEKS - width) / 2 - minCol.

(** Line 212: [if (minCol + shiftCols < 0) shiftCols += -(minCol + shiftCols)]. *)
Definition clampLeft (minCol shiftCols : Z) : Z :=
  if minCol + shiftCols <? 0 then shiftCols + - (minCol + shiftCols)
  else shiftCols.

(** Line 213: [if (maxCol + shiftCols > rightmostCol)
    shiftCols -= (maxCol + shiftCols - rightmostCol)]. *)
Definition clampRight (maxCol shiftCols : Z) : Z :=
  if maxCol + shiftCols >? rightmostCol
  then shiftCols - (maxCol + shiftCols - rightmostCol)
  else shiftCols.

(** Lines 209-213 together: centering, then the two clamps, for a drawing
    of columns [minCol .. maxCol]. *)
Definition clamped (minCol maxCol : Z) : Z :=
  clampRight maxCol (clampLeft minCol (centerShift minCol (maxCol - minCol + 1))).

(** Line 216: [p => (p.col + shiftCols === rightmostCol) && (p.row > todayRow)];
    [shiftCols] is the closure's view of the mutable variable. *)
Definition violatesFuture (shiftCols todayRow : Z) (p : ColRow) : bool :=
  (col p + shiftCols =? rightmostCol) && (row p >? todayRow).

(** The condition of the [while] of line 217. *)
Definition loopGuard (colRows : list ColRow) (minCol todayRow shiftCols : Z) : bool :=
  existsb (violatesFuture shiftCols todayRow) colRows && (minCol + shiftCols >? 0).

(** One execution of the [while] statement of lines 217-219, as a big-step
    relation from the shift on entry to the shift on exit, counting the
    iterations of the body [shiftCols -= 1]. *)
Inductive whileAvoid (colRows : list ColRow) (minCol todayRow : Z) :
  nat -> Z -> Z -> Prop :=
| while_exit s :
    loopGuard colRows minCol todayRow s = false ->
    whileAvoid colRows minCol todayRow 0 s s
| while_iter n s s' :
    loopGuard colRows minCol todayRow s = true ->
    whileAvoid colRows minCol todayRow n (s - 1) s' ->
    whileAvoid colRows minCol todayRow (S n) s s'.

(** Case analysis that remembers the equation, for the loop below. *)
Definition inspect {A : Type} (x : A) : { y : A | x = y } := exist _ x eq_refl.

(** The same loop as a function: the body runs again exactly when the
    guard holds.  The recursion is on the distance of the leftmost shifted
    column to column 0, which the guard keeps positive. *)
Equations? avoidFuture (colRows : list ColRow) (minCol todayRow shiftCols : Z) : Z
  by wf (Z.to_nat (minCol + shiftCols)) lt :=
  avoidFuture colRows minCol todayRow shiftCols
    with inspect (loopGuard colRows minCol todayRow shiftCols) := {
    | exist _ true g => avoidFuture colRows minCol todayRow (shiftCols - 1)
    | exist _ false _ => shiftCols }.
Proof.
  unfold loopGuard in g. apply andb_prop in g. destruct g as [_ g].
  apply Z.gtb_lt in g. lia.
Qed.

(** Lines 195-219: the shift chosen for a non-empty list of anchor
    coordinates, given the weekday row of the current day. *)
Definition planShift (p0 : ColRow) (ps : list ColRow) (todayRow : Z) : Z :=
  let colRows := p0 :: ps in
  let minCol := mathMin (col p0) (map col ps) in
  let maxCol := mathMax (col p0) (map col ps) in
  let width := maxCol - minCol + 1 in
  let shiftCols := centerShift minCol width in
  let shiftCols := clampLeft minCol shiftCols in
  let shiftCols := clampRight maxCol shiftCols in
  avoidFuture colRows minCol todayRow shiftCols.

(** Lines 223-225 of [remapOne], on day indices: the coordinate handed to
    [fromColRow] and the new index from the window start. *)
Definition shiftCoord (shiftCols : Z) (p : ColRow) : ColRow :=
  {| col := col p + shiftCols; row := row p |}.

Definition remapIdx (shiftCols oldIdx : Z) : Z :=
  let p := shiftCoord shiftCols (toColRow oldIdx) in
  fromColRow (col p) (row p).

End Grid.

(** ** JavaScript strings and the regular expressions the script uses *)

Module Js.

(** A string is a sequence of UTF-16 code units. *)
Definition cu : Set := N.
Definition str : Set := list cu.

(** An ASCII literal of the script as a JavaScript string. *)
Definition u16 (s : string) : str := map N_of_ascii (list_ascii_of_string s).

(** The line feed and the tab, for writing texts. *)
Definition lf : string := String (ascii_of_nat 10) EmptyString.
Definition tab : string := String (ascii_of_nat 9) EmptyString.

Open Scope N_scope.

(** LineTerminator: LF, CR, LS, PS. *)
Definition isLineTerminator (c : cu) : bool :=
  (c =? 10) || (c =? 13) || (c =? 8232) || (c =? 8233).

(** [\s]: WhiteSpace and LineTerminator code units. *)
Definition isSpace (c : cu) : bool :=
  (c =? 9) || (c =? 11) || (c =? 12) || (c =? 32) || (c =? 160) ||
  (c =? 5760) || ((8192 <=? c) && (c <=? 8202)) || (c =? 8239) ||
  (c =? 8287) || (c =? 12288) || (c =? 65279) || isLineTerminator c.

(** [.] without the s flag, [\d], [[A-Z]], [[a-z]], [[+-]], [[^x]]. *)
Definition isDot (c : cu) : bool := negb (isLineTerminator c).
Definition isDigit (c : cu) : bool := (48 <=? c) && (c <=? 57).
Definition isUpper (c : cu) : bool := (65 <=? c) && (c <=? 90).
Definition isLower (c : cu) : bool := (97 <=? c) && (c <=? 122).
Definition isSign (c : cu) : bool := (c =? 43) || (c =? 45).
Definition isNot (x : cu) (c : cu) : bool := negb (c =? x).

Close Scope N_scope.
Open Scope nat_scope.

(** The fragment of the pattern language the script's regexes are written
    in.  Quantifiers only ever apply to a single character class, which is
    all the script uses: [\s+], [\s*], [.*], [[^']*], [[^)]+]. *)
Inductive re : Type :=
| Eps                               (* the empty pattern *)
| Chr (p : cu -> bool)              (* one code unit of a class *)
| Lit (w : str)                     (* a literal run of code units *)
| Rep (lo : nat) (p : cu -> bool)   (* class{lo,}, greedy *)
| Bol                               (* ^ *)
| Eol                               (* $ *)
| Seq (r1 r2 : re)
| Alt (r1 r2 : re)                  (* r1|r2 *)
| Grp (r : re).                     (* ( r ), capturing *)

(** Concatenation of a list of patterns, and r{n}. *)
Definition cat (rs : list re) : re := fold_right Seq Eps rs.
Definition times (n : nat) (r : re) : re := cat (repeat r n).

(** [^] holds at the start of the input and, under the m flag, after a
    line terminator; [$] at the end of the input and, under the m flag,
    before a line terminator.  [prev] is the code unit before the current
    position, [s] the input from the current position on. *)
Definition atLineStart (ml : bool) (prev : option cu) : bool :=
  match prev with
  | None => true
  | Some c => ml && isLineTerminator c
  end.

Definition atLineEnd (ml : bool) (s : str) : bool :=
  match s with
  | [] => true
  | c :: _ => ml && isLineTerminator c
  end.

(** [strip w prev s] consumes the literal [w] at the front of [s]. *)
Fixpoint strip (w : str) (prev : option cu) (s : str) : option (option cu * str) :=
  match w with
  | [] => Some (prev, s)
  | a :: w' =>
      match s with
      | c :: s' => if N.eqb c a then strip w' (Some c) s' else None
      | [] => None
      end
  end.

(** The result of a successful match: the captures in order of their
    groups, and the input left after the match. *)
Definition found : Set := (list str * str)%type.

(** Greedy repetition of a class with backtracking: take one more code
    unit if possible, and only if the rest of the pattern then fails stop
    here (when at least [lo] were taken). *)
Fixpoint rep (p : cu -> bool) (lo : nat) (prev : option cu) (s : str)
         (k : option cu -> str -> option found) {struct s} : option found :=
  match s with
  | c :: s' =>
      if p c then
        match rep p (pred lo) (Some c) s' k with
        | Some x => Some x
        | None => match lo with O => k prev s | S _ => None end
        end
      else match lo with O => k prev s | S _ => None end
  | [] => match lo with O => k prev s | S _ => None end
  end.

(** The backtracking matcher, in continuation-passing style as in the
    language definition: [k] is the rest of the pattern.  No group of the
    script's regexes is nested or quantified, so a group's number is the
    order in which it closes. *)
Fixpoint matcher (ml : bool) (r : re) (prev : option cu) (s : str) (gs : list str)
         (k : option cu -> str -> list str -> option found) : option found :=
  match r with
  | Eps => k prev s gs
  | Chr p =>
      match s with
      | c :: s' => if p c then k (Some c) s' gs else None
      | [] => None
      end
  | Lit w =>
      match strip w prev s with
      | Some (prev', s') => k prev' s' gs
      | None => None
      end
  | Rep lo p => rep p lo prev s (fun prev' s' => k prev' s' gs)
  | Bol => if atLineStart ml prev then k prev s gs else None
  | Eol => if atLineEnd ml s then k prev s gs else None
  | Seq r1 r2 =>
      matcher ml r1 prev s gs (fun prev' s' gs' => matcher ml r2 prev' s' gs' k)
  | Alt r1 r2 =>
      match matcher ml r1 prev s gs k with
      | Some x => Some x
      | None => matcher ml r2 prev s gs k
      end
  | Grp r1 =>
      matcher ml r1 prev s gs
        (fun prev' s' gs' => k prev' s' (gs' ++ [firstn (List.length s - List.length s') s]))
  end.

(** A match attempt at the current position. *)
Definition matchAt (ml : bool) (r : re) (prev : option cu) (s : str) : option found :=
  matcher ml r prev s [] (fun _ s' gs => Some (gs, s')).

(** A match object: [m[0]] and [m[1]], [m[2]], ... *)
Record hit : Set := mkHit { whole : str; groups : list str }.

(** The input cut into the matches of a global regex and the code units
    between them. *)
Inductive piece : Set :=
| Keep (c : cu)
| Hit (h : hit).

(** The successive matches of a regex with the g flag, left to right, as
    [String.prototype.replace] finds them: the search resumes where the
    last match ended, one code unit further after an empty match.
    [skip] counts the code units of the last match still to be passed.
    (The [exec] loop of line 186 visits the same matches: [msgRe] cannot
    match the empty string.) *)
Fixpoint scan (ml : bool) (r : re) (skip : nat) (prev : option cu) (s : str)
  {struct s} : list piece :=
  match skip with
  | S n =>
      match s with
      | c :: s' => scan ml r n (Some c) s'
      | [] => []
      end
  | O =>
      match matchAt ml r prev s with
      | Some (gs, rest) =>
          let n := List.length s - List.length rest in
          Hit {| whole := firstn n s; groups := gs |} ::
            match s with
            | [] => []
            | c :: s' =>
                match n with
                | O => Keep c :: scan ml r 0 (Some c) s'
                | S n' => scan ml r n' (Some c) s'
                end
            end
      | None =>
          match s with
          | [] => []
          | c :: s' => Keep c :: scan ml r 0 (Some c) s'
          end
      end
  end.

(** [s.match(r)] for a regex without the g flag: the first position at
    which the regex matches. *)
Fixpoint search (ml : bool) (r : re) (prev : option cu) (s : str) {struct s} : option hit :=
  match matchAt ml r prev s with
  | Some (gs, rest) =>
      Some {| whole := firstn (List.length s - List.length rest) s; groups := gs |}
  | None =>
      match s with
      | [] => None
      | c :: s' => search ml r (Some c) s'
      end
  end.

(** [m[i]] for i >= 1. *)
Definition group (i : nat) (h : hit) : str := nth (pred i) (groups h) [].

(** [s.replace(r, w)] for a global regex and a replacement string without
    dollar patterns. *)
Definition replaceWith (ml : bool) (r : re) (w : str) (s : str) : str :=
  flat_map (fun x => match x with Keep c => [c] | Hit _ => w end) (scan ml r 0 None s).

(** All matches of the [exec] loop, in order. *)
Definition execAll (ml : bool) (r : re) (s : str) : list hit :=
  flat_map (fun x => match x with Keep _ => [] | Hit h => [h] end) (scan ml r 0 None s).

Close Scope nat_scope.

End Js.

Import Js.

(** ** The Date built-ins the script calls

    Time values are integral milliseconds since the epoch; the definitions
    follow the day-number and time-value algorithms of the language
    definition for the proleptic Gregorian calendar. *)

Module JsDate.

Definition msPerDay : Z := 86400000.

Definition Day (t : Z) : Z := t / msPerDay.
Definition WeekDay (t : Z) : Z := (Day t + 4) mod 7.

Definition DayFromYear (y : Z) : Z :=
  365 * (y - 1970) + (y - 1969) / 4 - (y - 1901) / 100 + (y - 1601) / 400.

Definition InLeapYear (y : Z) : bool :=
  ((y mod 4 =? 0) && negb (y mod 100 =? 0)) || (y mod 400 =? 0).

(** The largest year whose first day is not after day [d]; the estimate
    from the mean year length is off by at most one. *)
Definition YearFromDay (d : Z) : Z :=
  let y := 1970 + (d * 400) / 146097 in
  if DayFromYear (y + 1) <=? d then y + 1
  else if DayFromYear y <=? d then y
  else y - 1.

(** Day within the year on which month [m] (0 = January) starts. *)
Definition monthStart (leap : bool) (m : Z) : Z :=
  nth (Z.to_nat m) [0; 31; 59; 90; 120; 151; 181; 212; 243; 273; 304; 334] 0
  + (if leap && (2 <=? m) then 1 else 0).

Definition MonthFromDay (d : Z) : Z :=
  let y := YearFromDay d in
  let diy := d - DayFromYear y in
  Z.of_nat (List.length
    (filter (fun m => monthStart (InLeapYear y) m <=? diy)
            [1; 2; 3; 4; 5; 6; 7; 8; 9; 10; 11])).

Definition DateFromDay (d : Z) : Z :=
  let y := YearFromDay d in
  d - DayFromYear y - monthStart (InLeapYear y) (MonthFromDay d) + 1.

Definition MakeDay (year month date : Z) : Z :=
  let ym := year + month / 12 in
  let mn := month mod 12 in
  DayFromYear ym + monthStart (InLeapYear ym) mn + date - 1.

(** [Date.UTC(year, month, date, 0, 0, 0)]; a year from 0 to 99 means
    1900 + year.  The arguments the script passes keep the result far
    inside the range of valid time values. *)
Definition UTC (year month date : Z) : Z :=
  let yr := if (0 <=? year) && (year <=? 99) then 1900 + year else year in
  MakeDay yr month date * msPerDay.

(** [new Date(t).getUTCDay()] and the other getters. *)
Definition getUTCDay (t : Z) : Z := WeekDay t.
Definition getUTCFullYear (t : Z) : Z := YearFromDay (Day t).
Definition getUTCMonth (t : Z) : Z := MonthFromDay (Day t).
Definition getUTCDate (t : Z) : Z := DateFromDay (Day t).

End JsDate.

(** ** The script *)

Module Remap.

Import Grid Js.

(** A computation that may throw an [Error] with a message. *)
Inductive result (A : Type) : Type :=
| Ok (a : A)
| Throw (msg : str).
Arguments Ok {A} a.
Arguments Throw {A} msg.

Definition bind {A B : Type} (x : result A) (f : A -> result B) : result B :=
  match x with
  | Ok a => f a
  | Throw e => Throw e
  end.

Notation "x <- c ;; k" := (bind c (fun x => k))
  (at level 61, c at next level, right associativity).

(** [xs.map(f)] for a callback that may throw: the first throw ends it. *)
Fixpoint mapM {A B : Type} (f : A -> result B) (xs : list A) : result (list B) :=
  match xs with
  | [] => Ok []
  | x :: xs' => y <- f x ;; ys <- mapM f xs' ;; Ok (y :: ys)
  end.

(** [s.replace(r, callback)] for a global regex: the callback is called on
    each match from left to right, and a throw abandons the replacement. *)
Fixpoint substitute (f : hit -> result str) (ps : list piece) : result str :=
  match ps with
  | [] => Ok []
  | Keep c :: ps' => out <- substitute f ps' ;; Ok (c :: out)
  | Hit h :: ps' => w <- f h ;; out <- substitute f ps' ;; Ok (w ++ out)
  end.

Definition replaceBy (ml : bool) (r : re) (f : hit -> result str) (s : str) : result str :=
  substitute f (scan ml r 0 None s).

(** Lines 128-132. *)
Definition FULL_2019 : re :=
  cat [ Chr isUpper; times 2 (Chr isLower); Chr isSpace;
        Chr isUpper; times 2 (Chr isLower); Chr isSpace;
        times 2 (Chr isDigit); Chr isSpace;
        Lit (u16 "2019"); Chr isSpace;
        times 2 (Chr isDigit); Lit (u16 ":");
        times 2 (Chr isDigit); Lit (u16 ":");
        times 2 (Chr isDigit); Chr isSpace;
        Lit (u16 "GMT"); Chr isSign; times 4 (Chr isDigit); Chr isSpace;
        Lit (u16 "("); Rep 1 (isNot 41%N); Lit (u16 ")") ].

Definition DOW : list str :=
  map u16 ["Sun"; "Mon"; "Tue"; "Wed"; "Thu"; "Fri"; "Sat"]%string.
Definition MON : list str :=
  map u16 ["Jan"; "Feb"; "Mar"; "Apr"; "May"; "Jun";
           "Jul"; "Aug"; "Sep"; "Oct"; "Nov"; "Dec"]%string.

Definition strEqb (a b : str) : bool :=
  if list_eq_dec N.eq_dec a b then true else false.

(** [xs.indexOf(x)]: the first index holding [x], or -1. *)
Fixpoint indexOfFrom (i : Z) (x : str) (xs : list str) : Z :=
  match xs with
  | [] => -1
  | y :: xs' => if strEqb x y then i else indexOfFrom (i + 1) x xs'
  end.
Definition indexOf (x : str) (xs : list str) : Z := indexOfFrom 0 x xs.

(** [xs[i]] inside a template literal: an index outside the array reads
    [undefined]. *)
Definition at_ (xs : list str) (i : Z) : str :=
  if i <? 0 then u16 "undefined" else nth (Z.to_nat i) xs (u16 "undefined").

(** Unary [+] on a string of decimal digits. *)
Definition toNumber (ds : str) : Z :=
  fold_left (fun acc c => acc * 10 + (Z.of_N c - 48)) ds 0.

(** [String(n)] for an integer. *)
Definition ofNumber (n : Z) : str :=
  u16 (DecimalString.NilZero.string_of_int (Z.to_int n)).

(** [s.padStart(2, "0")]. *)
Definition padStart2 (s : str) : str :=
  repeat 48%N (2 - List.length s) ++ s.

(** Lines 134-143. *)
Definition gridStartUTC (year : Z) : Z :=
  let jan1 := JsDate.UTC year 0 1 in
  let wd := JsDate.getUTCDay jan1 in
  jan1 - wd * 86400000.

Definition weekStartUTC (dayUTCms : Z) : Z :=
  let wd := JsDate.getUTCDay dayUTCms in
  dayUTCms - wd * 86400000.

(** Line 146: [/^([A-Z][a-z]{2}) ([A-Z][a-z]{2}) (\d{2}) (\d{4}) /]. *)
Definition dayRe : re :=
  cat [ Bol;
        Grp (cat [Chr isUpper; times 2 (Chr isLower)]); Lit (u16 " ");
        Grp (cat [Chr isUpper; times 2 (Chr isLower)]); Lit (u16 " ");
        Grp (times 2 (Chr isDigit)); Lit (u16 " ");
        Grp (times 4 (Chr isDigit)); Lit (u16 " ") ].

(** Lines 144-150. *)
Definition parseFullDayUTC (s : str) : result Z :=
  match search false dayRe None s with
  | None => Throw (u16 "Bad date: " ++ s)
  | Some m =>
      let monStr := group 2 m in
      let dd := toNumber (group 3 m) in
      let yyyy := toNumber (group 4 m) in
      Ok (JsDate.UTC yyyy (indexOf monStr MON) dd)
  end.

(** Lines 151-158. *)
Definition fmtUTCNoon (dayUTCms : Z) : str :=
  let d := dayUTCms + 12 * 3600 * 1000 in
  let dow := at_ DOW (JsDate.getUTCDay d) in
  let mon := at_ MON (JsDate.getUTCMonth d) in
  let dd := padStart2 (ofNumber (JsDate.getUTCDate d)) in
  let yyyy := ofNumber (JsDate.getUTCFullYear d) in
  dow ++ u16 " " ++ mon ++ u16 " " ++ dd ++ u16 " " ++ yyyy
      ++ u16 " 12:00:00 GMT+0000 (UTC)".

(** Lines 172-178: the patterns of the sanitizer, all with flags gm. *)
Definition dropPatterns : list re :=
  [ cat [Bol; Lit (u16 "mkdir"); Rep 1 isSpace; Lit (u16 "github_painter");
         Rep 0 isDot; Eol];
    cat [Bol; Lit (u16 "cd"); Rep 1 isSpace; Lit (u16 "github_painter");
         Rep 0 isDot; Eol];
    cat [Bol; Lit (u16 "git"); Rep 1 isSpace; Lit (u16 "init");
         Rep 0 isDot; Eol];
    cat [Bol; Lit (u16 "git"); Rep 1 isSpace; Lit (u16 "remote"); Rep 1 isSpace;
         Lit (u16 "add"); Rep 1 isSpace; Lit (u16 "origin"); Rep 0 isDot; Eol];
    cat [Bol; Lit (u16 "git"); Rep 1 isSpace; Lit (u16 "pull"); Rep 1 isSpace;
         Lit (u16 "origin"); Rep 0 isDot; Eol] ].

(** [[...].forEach(re => (input = input.replace(re, '')))]. *)
Definition sanitize (input : str) : str :=
  fold_left (fun input r => replaceWith true r [] input) dropPatterns input.

(** Lines 181-184, flags gm:
    [(?:^|\n)git\s+commit\s+--date='[^']*'\s+-m\s+'(FULL_2019)']. *)
Definition msgRe : re :=
  cat [ Alt Bol (Lit [10%N]);
        Lit (u16 "git"); Rep 1 isSpace; Lit (u16 "commit"); Rep 1 isSpace;
        Lit (u16 "--date='"); Rep 0 (isNot 39%N); Lit (u16 "'"); Rep 1 isSpace;
        Lit (u16 "-m"); Rep 1 isSpace; Lit (u16 "'"); Grp FULL_2019;
        Lit (u16 "'") ].

(** Lines 231-234, flag g:
    [(echo\s+')(FULL_2019)('\s*>>\s*foobar\.txt)]. *)
Definition echoRe : re :=
  cat [ Grp (cat [Lit (u16 "echo"); Rep 1 isSpace; Lit (u16 "'")]);
        Grp FULL_2019;
        Grp (cat [Lit (u16 "'"); Rep 0 isSpace; Lit (u16 ">>"); Rep 0 isSpace;
                  Lit (u16 "foobar.txt")]) ].

(** Lines 238-241, flag g:
    [(git\s+commit\s+--date=')( [^']* )('\s+-m\s+')(FULL_2019)(')], the
    second group being any run without a quote. *)
Definition commitRe : re :=
  cat [ Grp (cat [Lit (u16 "git"); Rep 1 isSpace; Lit (u16 "commit"); Rep 1 isSpace;
                  Lit (u16 "--date='")]);
        Grp (Rep 0 (isNot 39%N));
        Grp (cat [Lit (u16 "'"); Rep 1 isSpace; Lit (u16 "-m"); Rep 1 isSpace;
                  Lit (u16 "'")]);
        Grp FULL_2019;
        Grp (Lit (u16 "'")) ].

(** Lines 185-186: the message dates, in order. *)
Definition anchors (input : str) : list str :=
  map (group 1) (execAll true msgRe input).

(** Lines 193-194: the day index of a date string from the 2019 grid start. *)
Definition dayIndex (start2019 : Z) (s : str) : result Z :=
  t <- parseFullDayUTC s ;; Ok ((t - start2019) / 86400000).

(** Lines 222-228. *)
Definition remapOne (start2019 shiftCols windowStartUTC : Z) (fullStr : str) : result str :=
  oldIdx <- dayIndex start2019 fullStr ;;
  let p := toColRow oldIdx in
  let newIdxFromWindow := fromColRow (col p + shiftCols) (row p) in
  let newDayUTC := windowStartUTC + newIdxFromWindow * 86400000 in
  Ok (fmtUTCNoon newDayUTC).

(** Line 235: [(_, a, date, c) => a + remapOne(date) + c]. *)
Definition echoCallback (remap : str -> result str) (m : hit) : result str :=
  let a := group 1 m in
  let date := group 2 m in
  let c := group 3 m in
  mapped <- remap date ;; Ok (a ++ mapped ++ c).

(** Lines 242-245. *)
Definition commitCallback (remap : str -> result str) (m : hit) : result str :=
  let a := group 1 m in
  let anyDate := group 2 m in
  let b := group 3 m in
  let msgDate := group 4 m in
  let e := group 5 m in
  mapped <- remap msgDate ;; Ok (a ++ mapped ++ b ++ mapped ++ e).

(** What a run leaves behind: the chunks written to standard output, and
    the uncaught error, if any, that ended it. *)
Record outcome : Set := mkOutcome { stdout : list str; uncaught : option str }.

(** Lines 192-245, once some anchor was found: the rewritten text.  The
    script reads the clock in three [new Date()] calls on one line; [now]
    is their common time value.  [msgs] is not empty here, so the first
    branch of the match is never taken. *)
Definition remapText (now : Z) (input : str) (msgs : list str) : result str :=
  let start2019 := gridStartUTC 2019 in
  idxs <- mapM (dayIndex start2019) msgs ;;
  match map toColRow idxs with
  | [] => Ok input
  | p0 :: ps =>
      let nowUTC := JsDate.UTC (JsDate.getUTCFullYear now) (JsDate.getUTCMonth now)
                               (JsDate.getUTCDate now) in
      let thisSun := weekStartUTC nowUTC in
      let windowStartUTC := thisSun - (GRID_WEEKS - 1) * 7 * 86400000 in
      let todayRow := JsDate.getUTCDay nowUTC in
      let shiftCols := planShift p0 ps todayRow in
      let remap := remapOne start2019 shiftCols windowStartUTC in
      input <- replaceBy false echoRe (echoCallback remap) input ;;
      replaceBy false commitRe (commitCallback remap) input
  end.

(** Lines 169-247 of [main], from the text read from the file on; [now] is
    the time value of the clock. *)
Definition main (now : Z) (fileText : str) : outcome :=
  let input := sanitize fileText in
  let msgs := anchors input in
  match msgs with
  | [] => {| stdout := [input]; uncaught := None |}
  | _ :: _ =>
      match remapText now input msgs with
      | Ok input => {| stdout := [input]; uncaught := None |}
      | Throw e => {| stdout := []; uncaught := Some e |}
      end
  end.

End Remap.

(** ** The grammar and the line structure the specification speaks of

    Second definitions, written from the words of the specification and
    from the shape of the patterns, to compare the script against. *)

Module Grammar.

Import Js.
Open Scope N_scope.

(** A string that starts with the date components [parseFullDayUTC]
    looks at: a capital and two small letters, a space, the same again, a
    space, two digits, a space, four digits, a space. *)
Definition dayHead (s : str) : bool :=
  match s with
  | a1 :: a2 :: a3 :: x1 :: b1 :: b2 :: b3 :: x2 :: d1 :: d2 :: x3
       :: y1 :: y2 :: y3 :: y4 :: x4 :: _ =>
      isUpper a1 && isLower a2 && isLower a3 && (x1 =? 32) &&
      isUpper b1 && isLower b2 && isLower b3 && (x2 =? 32) &&
      isDigit d1 && isDigit d2 && (x3 =? 32) &&
      isDigit y1 && isDigit y2 && isDigit y3 && isDigit y4 && (x4 =? 32)
  | _ => false
  end.

Close Scope N_scope.

(** The text as lines: every line that ends in a line terminator, with that
    terminator, and the last line, which has none.  Each of LF, CR, LS and
    PS ends a line. *)
Fixpoint splitLines (s : str) : list (str * cu) * str :=
  match s with
  | [] => ([], [])
  | c :: s' =>
      let (ls, last) := splitLines s' in
      if isLineTerminator c then (([], c) :: ls, last)
      else match ls with
           | [] => ([], c :: last)
           | (l, t) :: ls' => ((c :: l, t) :: ls', last)
           end
  end.

Definition joinLines (ls : list (str * cu)) (last : str) : str :=
  flat_map (fun lt => fst lt ++ [snd lt]) ls ++ last.

Definition linesOf (s : str) : list str :=
  let (ls, last) := splitLines s in map fst ls ++ [last].

(** A text in which every line is replaced by its image under [f]; line
    terminators stay where they are. *)
Definition mapLines (f : str -> str) (s : str) : str :=
  let (ls, last) := splitLines s in
  joinLines (map (fun lt => (f (fst lt), snd lt)) ls) (f last).

(** [afterWord w l]: the line [l] starts with the word [w]; what follows. *)
Fixpoint afterWord (w l : str) : option str :=
  match w with
  | [] => Some l
  | a :: w' =>
      match l with
      | c :: l' => if N.eqb c a then afterWord w' l' else None
      | [] => None
      end
  end.

Fixpoint dropSpaces (l : str) : str :=
  match l with
  | c :: l' => if isSpace c then dropSpaces l' else l
  | [] => []
  end.

(** After a word of a setup command: each further word follows after some
    white space. *)
Fixpoint restOK (ws : list str) (r : str) : bool :=
  match ws with
  | [] => true
  | w :: ws' =>
      match r with
      | c :: r1 =>
          isSpace c &&
          match afterWord w (dropSpaces r1) with
          | Some r2 => restOK ws' r2
          | None => false
          end
      | [] => false
      end
  end.

(** The line starts with the words of a setup command, separated by white
    space; anything may follow the last word. *)
Definition hasWords (ws : list str) (l : str) : bool :=
  match ws with
  | [] => false
  | w :: ws' =>
      match afterWord w l with
      | Some r => restOK ws' r
      | None => false
      end
  end.

(** After a word of a setup command: the line ends, after white space at
    most, before the last word of the command was read. *)
Fixpoint cutRest (ws : list str) (r : str) : bool :=
  match ws with
  | [] => false
  | w :: ws' =>
      match dropSpaces r with
      | [] => true
      | _ :: _ =>
          match r with
          | c :: r1 =>
              isSpace c &&
              match afterWord w (dropSpaces r1) with
              | Some r2 => cutRest ws' r2
              | None => false
              end
          | [] => false
          end
      end
  end.

(** The line is only the beginning of a setup command: it holds the first
    words of the command, but not all, and then white space at most. *)
Definition cutShort (ws : list str) (l : str) : bool :=
  match ws with
  | [] => false
  | w :: ws' =>
      match afterWord w l with
      | Some r => cutRest ws' r
      | None => false
      end
  end.

(** The words of the five setup and network commands, in the order of the
    sanitizer's patterns. *)
Definition setupWords : list (list str) :=
  [ [u16 "mkdir"; u16 "github_painter"];
    [u16 "cd"; u16 "github_painter"];
    [u16 "git"; u16 "init"];
    [u16 "git"; u16 "remote"; u16 "add"; u16 "origin"];
    [u16 "git"; u16 "pull"; u16 "origin"] ].

Definition isSetupLine (l : str) : bool := existsb (fun ws => hasWords ws l) setupWords.
Definition isCutShort (l : str) : bool := existsb (fun ws => cutShort ws l) setupWords.

(** What the sanitizer is said to do to a line. *)
Definition dropSetup (l : str) : str := if isSetupLine l then [] else l.

(** The pattern of a setup command from its words:
    [^word1\s+word2...\s+wordn.*$]. *)
Definition restRe (ws : list str) : re :=
  cat (flat_map (fun w => [Rep 1 isSpace; Lit w]) ws ++ [Rep 0 isDot; Eol]).

Definition wordsRe (ws : list str) : re :=
  match ws with
  | [] => Eps
  | w :: ws' => Seq Bol (Seq (Lit w) (restRe ws'))
  end.

(** *** Notions used to relate the patterns to lines *)

(** The code unit before the position reached after reading [l]. *)
Definition lastOr (prev : option cu) (l : str) : option cu :=
  fold_left (fun _ c => Some c) l prev.

(** A run of code units inside one line, and what may follow a line. *)
Definition noLT (l : str) : Prop := Forall (fun c => isLineTerminator c = false) l.
Definition endsLine (tail : str) : Prop :=
  match tail with
  | [] => True
  | t :: _ => isLineTerminator t = true
  end.

(** Lines with their terminators, as [splitLines] produces them. *)
Definition wfLines (ls : list (str * cu)) (last : str) : Prop :=
  Forall (fun lt => noLT (fst lt) /\ isLineTerminator (snd lt) = true) ls /\ noLT last.

(** Words of a command: not empty, without white space. *)
Definition goodWord (w : str) : Prop := w <> [] /\ Forall (fun c => isSpace c = false) w.
Definition goodCmd (ws : list str) : Prop := ws <> [] /\ Forall goodWord ws.

(** One pattern, and a list of patterns in turn, applied to a line. *)
Definition dropW (ws : list str) (l : str) : str := if hasWords ws l then [] else l.
Definition dropAll (wss : list (list str)) (l : str) : str :=
  fold_left (fun l ws => dropW ws l) wss l.

(** What a piece of a scanned text contributes when every match is
    replaced by [w]. *)
Definition emit (w : str) (x : piece) : str :=
  match x with
  | Keep c => [c]
  | Hit _ => w
  end.

End Grammar.

Import Grid Js Remap Grammar.

(** ** The sibling scripts

    The repository holds earlier versions of the remapper beside the final
    one; they share the parser, the formatter and the sanitizer and differ
    in how the new position is chosen. *)

(** The column-aligned script (src/remap-rolling.js, lines 1-113). *)
Module ColAlign.

Import Grid.

(** Line 83. *)
Definition targetMaxCol : Z := 51.

(** Lines 86-90: align the latest column with the current week, then, if
    the earliest column falls before the window, shift right so that it is
    column 0. *)
Definition finalShiftCols (minCol maxCol : Z) : Z :=
  let shiftCols := targetMaxCol - maxCol in
  let earliestShiftedCol := minCol + shiftCols in
  if earliestShiftedCol <? 0 then shiftCols - earliestShiftedCol else shiftCols.

(** Lines 72-73 and 86-90 for a non-empty list of anchor coordinates. *)
Definition planShift (p0 : ColRow) (ps : list ColRow) : Z :=
  finalShiftCols (mathMin (col p0) (map col ps)) (mathMax (col p0) (map col ps)).

End ColAlign.

(** The script that centres by days (src/unnamed/part_000, lines 126-240). *)
Module Centered.

Definition DAY : Z := 86400000.
Definition WINDOW_WEEKS : Z := 52.
Definition WINDOW_DAYS : Z := WINDOW_WEEKS * 7.

(** Line 200: [weekSunday(todayUTC) - WINDOW_DAYS*DAY]; [weekSunday]
    (lines 143-147) has the body of [weekStartUTC]. *)
Definition windowStart (todayUTC : Z) : Z :=
  Remap.weekStartUTC todayUTC - WINDOW_DAYS * DAY.

(** Lines 205-219: the new day of the earliest day of the art. *)
Definition anchorEarliest (windowStart artDays : Z) : Z :=
  let anchorEarliest := windowStart in
  let anchorEarliest :=
    if artDays <? WINDOW_DAYS
    then anchorEarliest + ((WINDOW_DAYS - artDays) / 2) * DAY
    else anchorEarliest in
  let windowEnd := windowStart + (WINDOW_DAYS - 1) * DAY in
  let maxAnchor := windowEnd - (artDays - 1) * DAY in
  if maxAnchor >=? windowStart then
    let anchorEarliest := if anchorEarliest >? maxAnchor then maxAnchor else anchorEarliest in
    if anchorEarliest <? windowStart then windowStart else anchorEarliest
  else maxAnchor.

(** Lines 221-225 of [remap], on time values: the new day of [oldDay]. *)
Definition newDay (baseEarliest anchorEarliest oldDay : Z) : Z :=
  let offset := (oldDay - baseEarliest) / DAY in
  anchorEarliest + offset * DAY.

End Centered.

(** The first script, a plain rolling window (src/unnamed/part_000, lines
    1-125). *)
Module Rolling.

(** Lines 91-95: the new day of the earliest day of the art; [span] is the
    number of days from the earliest to the latest day. *)
Definition newBase (todayUTC thisWeekSun span : Z) : Z :=
  let rollingStart := thisWeekSun - 52 * 7 * 86400000 in
  let startCandidate := todayUTC - span * 86400000 in
  Z.max startCandidate rollingStart.

(** Lines 98-102 of [remapFull], on time values. *)
Definition newDayUtc (baseOld newBase oldDayUtc : Z) : Z :=
  let offsetDays := (oldDayUtc - baseOld) / 86400000 in
  newBase + offsetDays * 86400000.

End Rolling.

(** ** Notions for the further properties *)

Module Shapes.

Import Js.

(** [a] arises from [b] by deleting code units. *)
Inductive Subseq : str -> str -> Prop :=
| sub_nil : Subseq [] []
| sub_keep c a b : Subseq a b -> Subseq (c :: a) (c :: b)
| sub_drop c a b : Subseq a b -> Subseq a (c :: b).

(** What a pattern can consume, and the captures it then holds: the
    reading of a pattern as a set of strings, without regard to what
    surrounds the match. *)
Fixpoint Caps (r : re) (pre : str) (caps : list str) : Prop :=
  match r with
  | Eps | Bol | Eol => pre = [] /\ caps = []
  | Chr p => caps = [] /\ exists c, pre = [c] /\ p c = true
  | Lit w => pre = w /\ caps = []
  | Rep lo p =>
      caps = [] /\ Forall (fun c => p c = true) pre /\ (lo <= List.length pre)%nat
  | Seq r1 r2 =>
      exists p1 p2 c1 c2,
        pre = p1 ++ p2 /\ caps = c1 ++ c2 /\ Caps r1 p1 c1 /\ Caps r2 p2 c2
  | Alt r1 r2 => Caps r1 pre caps \/ Caps r2 pre caps
  | Grp r1 => exists c1, caps = c1 ++ [pre] /\ Caps r1 pre c1
  end.

(** The four separators of a date before the time of day are plain
    spaces. *)
Definition sepsAreSpaces (a : str) : bool :=
  (nth 3 a 0 =? 32)%N && (nth 7 a 0 =? 32)%N && (nth 10 a 0 =? 32)%N
  && (nth 15 a 0 =? 32)%N.

(** The part of the input a piece of a scan stands for. *)
Definition original (x : piece) : str :=
  match x with
  | Keep c => [c]
  | Hit h => whole h
  end.

End Shapes.

Import Shapes.

(** * Properties *)

(** ** The grid mapper *)

Section GridFacts.

Open Scope Z_scope.

Lemma gtb_false_iff n m : (n >? m) = false <-> n <= m.
Proof. rewrite Z.gtb_ltb. apply Z.ltb_ge. Qed.

Lemma mathMin_le_acc xs : forall x, mathMin x xs <= x.
Proof.
  unfold mathMin. induction xs as [|y xs IH]; intros x; simpl; [lia|].
  specialize (IH (Z.min x y)). lia.
Qed.

Lemma mathMin_le xs : forall x y, In y (x :: xs) -> mathMin x xs <= y.
Proof.
  unfold mathMin. induction xs as [|z xs IH]; intros x y [E | H]; simpl in *.
  - lia.
  - contradiction.
  - subst y. pose proof (mathMin_le_acc xs (Z.min x z)) as L. unfold mathMin in L. lia.
  - destruct H as [E | H].
    + subst y. pose proof (mathMin_le_acc xs (Z.min x z)) as L. unfold mathMin in L. lia.
    + apply IH. right. exact H.
Qed.

Lemma mathMax_ge_acc xs : forall x, x <= mathMax x xs.
Proof.
  unfold mathMax. induction xs as [|y xs IH]; intros x; simpl; [lia|].
  specialize (IH (Z.max x y)). lia.
Qed.

Lemma mathMax_ge xs : forall x y, In y (x :: xs) -> y <= mathMax x xs.
Proof.
  unfold mathMax. induction xs as [|z xs IH]; intros x y [E | H]; simpl in *.
  - lia.
  - contradiction.
  - subst y. pose proof (mathMax_ge_acc xs (Z.max x z)) as L. unfold mathMax in L. lia.
  - destruct H as [E | H].
    + subst y. pose proof (mathMax_ge_acc xs (Z.max x z)) as L. unfold mathMax in L. lia.
    + apply IH. right. exact H.
Qed.

(** The loop function unfolds like the [while] statement. *)
Lemma avoidFuture_unfold colRows minCol todayRow s :
  avoidFuture colRows minCol todayRow s =
  if loopGuard colRows minCol todayRow s
  then avoidFuture colRows minCol todayRow (s - 1)
  else s.
Proof.
  funelim (avoidFuture colRows minCol todayRow s).
  - rewrite g. reflexivity.
  - rewrite e. reflexivity.
Qed.

(** The loop as a relation is deterministic in its exit shift. *)
Lemma whileAvoid_functional colRows minCol todayRow n s s1 :
  whileAvoid colRows minCol todayRow n s s1 ->
  forall m s2, whileAvoid colRows minCol todayRow m s s2 -> n = m /\ s1 = s2.
Proof.
  induction 1 as [s G | n s s' G W IH]; intros m s2 W2;
    inversion W2; subst; try congruence.
  - split; reflexivity.
  - destruct (IH _ _ H0) as [-> ->]. split; reflexivity.
Qed.

(** Running the loop from any shift: it exits after at most
    [minCol + shiftCols] iterations (none if that is not positive), each of
    which lowered the shift by one. *)
Lemma whileAvoid_total colRows minCol todayRow :
  forall (fuel : nat) (s : Z),
    (Z.to_nat (minCol + s) <= fuel)%nat ->
    exists n,
      whileAvoid colRows minCol todayRow n s (avoidFuture colRows minCol todayRow s)
      /\ (n <= Z.to_nat (minCol + s))%nat
      /\ avoidFuture colRows minCol todayRow s = s - Z.of_nat n.
Proof.
  induction fuel as [|fuel IH]; intros s Hf.
  - exists 0%nat. rewrite avoidFuture_unfold.
    assert (G : loopGuard colRows minCol todayRow s = false).
    { unfold loopGuard. apply andb_false_iff. right. apply gtb_false_iff. lia. }
    rewrite G. repeat split; [constructor; exact G | lia | simpl; lia].
  - rewrite avoidFuture_unfold.
    destruct (loopGuard colRows minCol todayRow s) eqn:G.
    + assert (P : 0 < minCol + s).
      { unfold loopGuard in G. apply andb_prop in G. destruct G as [_ G].
        apply Z.gtb_lt in G. lia. }
      destruct (IH (s - 1)) as (n & W & B & E); [lia|].
      exists (S n). repeat split.
      * econstructor; eassumption.
      * lia.
      * rewrite E. lia.
    + exists 0%nat. repeat split; [constructor; exact G | lia | simpl; lia].
Qed.

(** Every anchor column lies between [minCol] and [maxCol]. *)
Lemma col_between p0 ps p :
  In p (p0 :: ps) ->
  mathMin (col p0) (map col ps) <= col p <= mathMax (col p0) (map col ps).
Proof.
  intros H. assert (I : In (col p) (col p0 :: map col ps)).
  { change (In (col p) (map col (p0 :: ps))). apply in_map. exact H. }
  split; [apply mathMin_le | apply mathMax_ge]; exact I.
Qed.

Lemma clamped_fits minCol maxCol :
  minCol <= maxCol -> maxCol - minCol + 1 <= GRID_WEEKS ->
  clamped minCol maxCol = (GRID_WEEKS - (maxCol - minCol + 1)) / 2 - minCol
  /\ 0 <= minCol + clamped minCol maxCol
  /\ maxCol + clamped minCol maxCol <= rightmostCol
  /\ (0 < minCol + clamped minCol maxCol -> maxCol + clamped minCol maxCol < rightmostCol).
Proof.
  intros L W. unfold clamped, clampRight, clampLeft, centerShift, rightmostCol, GRID_WEEKS in *.
  set (w := maxCol - minCol + 1) in *.
  assert (Q : 0 <= (53 - w) / 2) by (apply Z.div_pos; lia).
  assert (Q2 : 2 * ((53 - w) / 2) <= 53 - w) by (apply Z.mul_div_le; lia).
  assert (Q3 : 53 - w < 2 * ((53 - w) / 2) + 2).
  { pose proof (Z.mod_pos_bound (53 - w) 2 ltac:(lia)).
    pose proof (Z.div_mod (53 - w) 2 ltac:(lia)). lia. }
  destruct (minCol + ((53 - w) / 2 - minCol) <? 0) eqn:E1;
    [apply Z.ltb_lt in E1; lia|].
  destruct (maxCol + ((53 - w) / 2 - minCol) >? 53 - 1) eqn:E2;
    [apply Z.gtb_lt in E2; lia|].
  repeat split; lia.
Qed.

Lemma clamped_oversized minCol maxCol :
  GRID_WEEKS < maxCol - minCol + 1 ->
  clamped minCol maxCol = rightmostCol - maxCol
  /\ minCol + clamped minCol maxCol = GRID_WEEKS - (maxCol - minCol + 1)
  /\ maxCol + clamped minCol maxCol = rightmostCol.
Proof.
  intros W. unfold clamped, clampRight, clampLeft, centerShift, rightmostCol, GRID_WEEKS in *.
  set (w := maxCol - minCol + 1) in *.
  assert (Q : (53 - w) / 2 < 0) by (apply Z.div_lt_upper_bound; lia).
  destruct (minCol + ((53 - w) / 2 - minCol) <? 0) eqn:E1;
    [|apply Z.ltb_ge in E1; lia].
  destruct (maxCol + ((53 - w) / 2 - minCol + - (minCol + ((53 - w) / 2 - minCol))) >? 53 - 1) eqn:E2;
    [|apply gtb_false_iff in E2; lia].
  repeat split; lia.
Qed.

(** On the shift that centering and clamping produce, the guard of the
    future-avoidance loop is false on entry: a coordinate reaches the
    rightmost column only when the leftmost shifted column is at or left
    of column 0. *)
Lemma guard_false_on_entry p0 ps todayRow :
  let minCol := mathMin (col p0) (map col ps) in
  let maxCol := mathMax (col p0) (map col ps) in
  loopGuard (p0 :: ps) minCol todayRow (clamped minCol maxCol) = false.
Proof.
  intros minCol maxCol.
  assert (L : minCol <= maxCol).
  { pose proof (col_between p0 ps p0 (or_introl eq_refl)). subst minCol maxCol. lia. }
  unfold loopGuard. apply andb_false_iff.
  destruct (Z_le_gt_dec (maxCol - minCol + 1) GRID_WEEKS) as [W | W].
  - destruct (clamped_fits minCol maxCol L W) as (_ & _ & _ & F).
    destruct (Z_lt_le_dec 0 (minCol + clamped minCol maxCol)) as [P | P].
    + left. apply not_true_is_false. intros E.
      apply existsb_exists in E. destruct E as (p & I & V).
      unfold violatesFuture in V. apply andb_prop in V. destruct V as [V _].
      apply Z.eqb_eq in V. pose proof (col_between p0 ps p I). specialize (F P).
      subst minCol maxCol. lia.
    + right. apply gtb_false_iff. exact P.
  - right. apply gtb_false_iff.
    destruct (clamped_oversized minCol maxCol) as (_ & E & _); lia.
Qed.

(** Hence the shift of a run is the centred and clamped one. *)
Lemma planShift_clamped p0 ps todayRow :
  planShift p0 ps todayRow =
  clamped (mathMin (col p0) (map col ps)) (mathMax (col p0) (map col ps)).
Proof.
  unfold planShift. cbv zeta. fold (clamped (mathMin (col p0) (map col ps))
                                           (mathMax (col p0) (map col ps))).
  rewrite avoidFuture_unfold, guard_false_on_entry. reflexivity.
Qed.


(** On exit the guard is false. *)
Lemma whileAvoid_exit colRows minCol todayRow n s s' :
  whileAvoid colRows minCol todayRow n s s' ->
  loopGuard colRows minCol todayRow s' = false.
Proof. induction 1; assumption. Qed.

(** The bounds of the mapped columns.  A drawing no wider than the window
    lands inside it. *)
Lemma planShift_fits p0 ps todayRow p :
  mathMax (col p0) (map col ps) - mathMin (col p0) (map col ps) + 1 <= GRID_WEEKS ->
  In p (p0 :: ps) ->
  0 <= col (shiftCoord (planShift p0 ps todayRow) p) <= rightmostCol.
Proof.
  intros W I. rewrite planShift_clamped. pose proof (col_between p0 ps p I) as B.
  destruct (clamped_fits (mathMin (col p0) (map col ps)) (mathMax (col p0) (map col ps)))
    as (_ & L & R & _); [lia | exact W |].
  unfold shiftCoord. simpl. lia.
Qed.

(** A wider drawing is aligned with the right edge of the window and
    sticks out on the left. *)
Lemma planShift_oversized p0 ps todayRow :
  let minCol := mathMin (col p0) (map col ps) in
  let maxCol := mathMax (col p0) (map col ps) in
  GRID_WEEKS < maxCol - minCol + 1 ->
  minCol + planShift p0 ps todayRow = GRID_WEEKS - (maxCol - minCol + 1)
  /\ maxCol + planShift p0 ps todayRow = rightmostCol.
Proof.
  intros minCol maxCol W. rewrite planShift_clamped.
  destruct (clamped_oversized minCol maxCol W) as (_ & L & R). split; assumption.
Qed.

End GridFacts.

(** ** Claims about the grid mapper *)

Section GridClaims.

Open Scope Z_scope.

(** C4 (as amended).  Converting a Day Index to a Grid Coordinate and
    back, [fromColRow] applied to the column and row of [toColRow i], gives
    [i] again exactly when [i] is not negative or is a multiple of 7: the
    row is computed with the truncating remainder, so any other negative
    index comes back as [i - 7]. *)
Theorem grid_roundtrip i :
  fromColRow (col (toColRow i)) (row (toColRow i)) = i <-> (0 <= i \/ i mod 7 = 0).
Proof.
  unfold fromColRow, toColRow. simpl.
  pose proof (Z.div_mod i 7 ltac:(lia)) as D.
  pose proof (Z.mod_pos_bound i 7 ltac:(lia)) as B.
  destruct (Z_le_gt_dec 0 i) as [P | N].
  - rewrite Z.rem_mod_nonneg by lia. split; [intros _; left; exact P | intros _; lia].
  - pose proof (Z.rem_opp_l i 7 ltac:(lia)) as R.
    rewrite Z.rem_mod_nonneg in R by lia.
    pose proof (Z.div_mod (- i) 7 ltac:(lia)) as D'.
    pose proof (Z.mod_pos_bound (- i) 7 ltac:(lia)) as B'.
    assert (Rm : Z.rem i 7 = - ((- i) mod 7)) by lia.
    rewrite Rm.
    destruct (Z.eq_dec (i mod 7) 0) as [Z0 | NZ].
    + assert (Z0' : (- i) mod 7 = 0) by (apply Z.mod_opp_l_z; lia).
      split; [intros _; right; exact Z0 | intros _; lia].
    + assert (NZ' : (- i) mod 7 = 7 - i mod 7) by (apply Z.mod_opp_l_nz; lia).
      split; [intros E; lia | intros [P | Z0]; lia].
Qed.

(** C4, the claim as stated fails: the Day Index -1 (one day before the
    grid origin) has column -1 and row -1 and comes back as -8. *)
Lemma grid_roundtrip_negative :
  toColRow (-1) = {| col := -1; row := -1 |} /\
  fromColRow (col (toColRow (-1))) (row (toColRow (-1))) = -8 /\
  fromColRow (col (toColRow (-1))) (row (toColRow (-1))) <> -1.
Proof. repeat split; vm_compute; congruence. Qed.



(** C10.  The future-avoidance loop terminates from every shift, for every
    list of coordinates and every current weekday: it runs [n] iterations
    with [n] at most [minCol + shiftCols] (none when that is not positive),
    each iteration lowers the shift by exactly one, and once an iteration
    has run the shift stays at or above [- minCol].  On exit the guard is
    false, and the loop function of the model returns the exit shift. *)
Theorem future_loop_terminates colRows minCol todayRow shiftCols :
  exists (n : nat) (final : Z),
    whileAvoid colRows minCol todayRow n shiftCols final
    /\ (n <= Z.to_nat (minCol + shiftCols))%nat
    /\ final = shiftCols - Z.of_nat n
    /\ (n = 0%nat \/ - minCol <= final)
    /\ loopGuard colRows minCol todayRow final = false
    /\ avoidFuture colRows minCol todayRow shiftCols = final.
Proof.
  destruct (whileAvoid_total colRows minCol todayRow
              (Z.to_nat (minCol + shiftCols)) shiftCols (le_n _)) as (n & W & B & E).
  exists n, (avoidFuture colRows minCol todayRow shiftCols).
  repeat split; try assumption.
  - destruct n as [|n]; [left; reflexivity | right; lia].
  - eapply whileAvoid_exit; eassumption.
Qed.

(** C2 (as amended).  When the future-avoidance pass ends, either no
    mapped coordinate lies in the rightmost column at a row greater than
    [todayRow], or the leftmost shifted column is at or left of column 0,
    where the pass is blocked.  The pass is the loop that lowers the shift
    by one while some coordinate lies in the rightmost column at a row
    greater than [todayRow] and the leftmost shifted column is greater
    than 0.  This holds for the loop from any entry shift and for the
    shift of a run. *)
Theorem no_future_or_blocked p0 ps todayRow :
  (forall colRows minCol s0,
      let final := avoidFuture colRows minCol todayRow s0 in
      (exists n, whileAvoid colRows minCol todayRow n s0 final) /\
      (existsb (violatesFuture final todayRow) colRows = false \/ minCol + final <= 0))
  /\
  (let s := planShift p0 ps todayRow in
   existsb (violatesFuture s todayRow) (p0 :: ps) = false
   \/ mathMin (col p0) (map col ps) + s <= 0).
Proof.
  assert (G : forall colRows minCol s0,
             let final := avoidFuture colRows minCol todayRow s0 in
             (exists n, whileAvoid colRows minCol todayRow n s0 final) /\
             (existsb (violatesFuture final todayRow) colRows = false \/ minCol + final <= 0)).
  { intros colRows minCol s0 final.
    destruct (whileAvoid_total colRows minCol todayRow
                (Z.to_nat (minCol + s0)) s0 (le_n _)) as (n & W & _ & _).
    split; [exists n; exact W|].
    pose proof (whileAvoid_exit _ _ _ _ _ _ W) as X. unfold loopGuard in X.
    apply andb_false_iff in X. destruct X as [X | X]; [left; exact X | right].
    apply gtb_false_iff in X. exact X. }
  split; [exact G|].
  unfold planShift. cbv zeta. apply G.
Qed.

(** C2, the claim as stated fails.  Anchors on 1 January 2019 (index 2,
    column 0, row 2) and 31 December 2019 (index 366, column 52, row 2),
    run on a Sunday (row 0): the drawing fills all 53 columns, the shift is
    0, and the second anchor stays in the rightmost column at row 2, after
    the current weekday. *)
Lemma no_future_blocked_example :
  let p0 := toColRow 2 in
  let p1 := toColRow 366 in
  let todayRow := 0 in
  let s := planShift p0 [p1] todayRow in
  s = 0 /\
  ~ (forall p, In p [p0; p1] ->
               col (shiftCoord s p) = rightmostCol -> row (shiftCoord s p) <= todayRow).
Proof.
  split; [vm_compute; reflexivity|].
  intros H. specialize (H (toColRow 366) (or_intror (or_introl eq_refl))).
  vm_compute in H. apply H; reflexivity.
Qed.

(** C3, the code at an oversized drawing.  The date strings of 1 January
    2019 and of day 99 of December 2019 (which the date pattern admits)
    have day indices 2 and 434, columns 0 and 62, a width of 63 columns.
    Whatever the weekday, the shift is -10: the right-bound correction,
    applied last, wins; the leftmost mapped column is -10, below 0, and the
    rightmost mapped column is exactly [rightmostCol]. *)
Theorem oversized_drawing_breaks_left_bound todayRow :
  let a := u16 "Tue Jan 01 2019 00:00:00 GMT+0000 (UTC)" in
  let b := u16 "Sun Dec 99 2019 00:00:00 GMT+0000 (UTC)" in
  mapM (dayIndex (gridStartUTC 2019)) [a; b] = Ok [2; 434] /\
  map toColRow [2; 434] = [ {| col := 0; row := 2 |}; {| col := 62; row := 0 |} ] /\
  let s := planShift (toColRow 2) [toColRow 434] todayRow in
  s = -10 /\
  col (shiftCoord s (toColRow 2)) = -10 /\
  col (shiftCoord s (toColRow 434)) = rightmostCol.
Proof.
  cbv zeta. rewrite planShift_clamped.
  repeat split; vm_compute; reflexivity.
Qed.

End GridClaims.

(** ** The parser and the rewriter *)

Section TextFacts.

Open Scope Z_scope.

(** A regex that starts with [^] and has no m flag matches at the start of
    the input only. *)
Lemma search_not_at_start r c s : search false (Seq Bol r) (Some c) s = None.
Proof.
  revert c. induction s as [|d s IH]; intros c; simpl.
  - reflexivity.
  - apply IH.
Qed.

(** The match of the date-component regex at the start of a string. *)
Lemma matchAt_dayRe s :
  matchAt false dayRe None s =
  if dayHead s
  then Some ([firstn 3 s; firstn 3 (skipn 4 s); firstn 2 (skipn 8 s);
              firstn 4 (skipn 11 s)], skipn 16 s)
  else None.
Proof.
  unfold matchAt, dayRe, dayHead.
  cbn -[isUpper isLower isDigit N.eqb Nat.sub List.length firstn skipn].
  repeat (match goal with
          | |- context [if ?b then _ else _] =>
              lazymatch b with
              | isUpper _ => idtac
              | isLower _ => idtac
              | isDigit _ => idtac
              | N.eqb _ _ => idtac
              end;
              destruct b
          | |- context [match ?l with [] => _ | _ :: _ => _ end] =>
              is_var l; destruct l
          end;
          cbn -[isUpper isLower isDigit N.eqb Nat.sub List.length firstn skipn];
          try reflexivity).
  cbn [List.length]. rewrite !Nat.sub_succ.
  generalize (List.length s) as L; intros L.
  replace (S (S (S L)) - L)%nat with 3%nat by lia.
  replace (S (S L) - L)%nat with 2%nat by lia.
  replace (S (S (S (S L))) - L)%nat with 4%nat by lia.
  reflexivity.
Qed.

(** [parseFullDayUTC] throws exactly on the strings without the date head;
    on the others it reads month name, day and year at fixed offsets. *)
Lemma parseFullDayUTC_spec s :
  parseFullDayUTC s =
  if dayHead s
  then Ok (JsDate.UTC (toNumber (firstn 4 (skipn 11 s)))
                      (indexOf (firstn 3 (skipn 4 s)) MON)
                      (toNumber (firstn 2 (skipn 8 s))))
  else Throw (u16 "Bad date: " ++ s).
Proof.
  unfold parseFullDayUTC.
  assert (S : search false dayRe None s =
              match matchAt false dayRe None s with
              | Some (gs, rest) =>
                  Some {| whole := firstn (List.length s - List.length rest) s;
                          groups := gs |}
              | None => None
              end).
  { destruct s as [|c s]; [reflexivity|].
    cbn [search]. destruct (matchAt false dayRe None (c :: s)) as [[gs rest]|];
      [reflexivity|].
    apply search_not_at_start. }
  rewrite S, matchAt_dayRe. destruct (dayHead s); reflexivity.
Qed.





End TextFacts.

(** ** Claims about parsing, pass-through and rewriting *)

Section TextClaims.

Open Scope Z_scope.




(** C7.  When the anchor extractor finds no commit-message date in the
    sanitized text, the run writes the sanitized text, unchanged, as its
    whole output and ends normally: one write, no error, and no date is
    parsed or replaced. *)
Theorem passthrough_without_anchors now fileText :
  anchors (sanitize fileText) = [] ->
  main now fileText = {| stdout := [sanitize fileText]; uncaught := None |}.
Proof. intros H. unfold main. rewrite H. reflexivity. Qed.

(** A template of setup lines only: each of them is emptied, no anchor is
    found, and what is written is the three line feeds that remain. *)
Lemma passthrough_without_anchors_witness :
  let text := u16 ("mkdir github_painter" ++ lf ++ "git init" ++ lf ++
                   "git remote add origin x" ++ lf ++ "git pull origin main") in
  sanitize text = u16 (lf ++ lf ++ lf) /\
  main 1794009600000 text = {| stdout := [u16 (lf ++ lf ++ lf)]; uncaught := None |}.
Proof.
  intros text.
  assert (S : sanitize text = u16 (lf ++ lf ++ lf)) by (vm_compute; reflexivity).
  split; [exact S|].
  rewrite (passthrough_without_anchors 1794009600000 text).
  - rewrite S. reflexivity.
  - vm_compute. reflexivity.
Defined.



End TextClaims.

(** ** The sanitizer, line by line *)

Section SanitizerFacts.

Lemma lastOr_app prev a b : lastOr prev (a ++ b) = lastOr (lastOr prev a) b.
Proof. unfold lastOr. apply fold_left_app. Qed.

Lemma space_of_LT c : isLineTerminator c = true -> isSpace c = true.
Proof. intros H. unfold isSpace. rewrite H. apply orb_true_r. Qed.

Lemma notLT_of_notSpace c : isSpace c = false -> isLineTerminator c = false.
Proof.
  intros H. destruct (isLineTerminator c) eqn:E; [|reflexivity].
  rewrite (space_of_LT c E) in H. discriminate.
Qed.

Lemma rep_max p k : forall run lo prev tail,
  Forall (fun c => p c = true) run ->
  match tail with [] => True | c :: _ => p c = false end ->
  (forall a b, run = a ++ b -> b <> [] -> k (lastOr prev a) (b ++ tail) = None) ->
  rep p lo prev (run ++ tail) k =
  if (lo <=? List.length run)%nat then k (lastOr prev run) tail else None.
Proof.
  induction run as [|c run IH]; intros lo prev tail F T K.
  - simpl. destruct tail as [|c tail]; simpl.
    + destruct lo; reflexivity.
    + rewrite T. destruct lo; reflexivity.
  - inversion F as [|? ? Pc F']; subst. simpl app. cbn [rep]. rewrite Pc.
    rewrite (IH (pred lo) (Some c) tail F' T).
    + assert (K0 : k prev (c :: run ++ tail) = None).
      { apply (K [] (c :: run)); [reflexivity | discriminate]. }
      rewrite K0. change (lastOr prev (c :: run)) with (lastOr (Some c) run).
      cbn [List.length].
      destruct lo as [|lo]; simpl.
      * destruct (k (lastOr (Some c) run) tail); reflexivity.
      * destruct (lo <=? List.length run)%nat; [|reflexivity].
        destruct (k (lastOr (Some c) run) tail); reflexivity.
    + intros a b E NE. apply (K (c :: a) b); [simpl; congruence | exact NE].
Qed.

Lemma afterWord_some w : forall l r, afterWord w l = Some r -> l = w ++ r.
Proof.
  induction w as [|a w IH]; intros l r H; simpl in *.
  - congruence.
  - destruct l as [|c l]; [discriminate|].
    destruct (N.eqb c a) eqn:E; [|discriminate].
    apply N.eqb_eq in E. subst. f_equal. apply IH. exact H.
Qed.

Lemma strip_some w : forall prev l r tail,
  afterWord w l = Some r -> strip w prev (l ++ tail) = Some (lastOr prev w, r ++ tail).
Proof.
  induction w as [|a w IH]; intros prev l r tail H; simpl in *.
  - injection H as <-. reflexivity.
  - destruct l as [|c l]; [discriminate|]. simpl.
    destruct (N.eqb c a) eqn:E; [|discriminate].
    apply N.eqb_eq in E. subst. apply IH. exact H.
Qed.

Lemma strip_none w : forall prev l tail,
  Forall (fun c => isLineTerminator c = false) w -> endsLine tail ->
  afterWord w l = None -> strip w prev (l ++ tail) = None.
Proof.
  induction w as [|a w IH]; intros prev l tail F T H; simpl in *.
  - discriminate.
  - inversion F as [|? ? Fa F']; subst.
    destruct l as [|c l]; simpl.
    + destruct tail as [|t tail]; [reflexivity|]. simpl in T.
      destruct (N.eqb t a) eqn:E; [|reflexivity].
      apply N.eqb_eq in E. subst. congruence.
    + destruct (N.eqb c a); [|reflexivity]. apply IH; assumption.
Qed.

Lemma dropSpaces_split l :
  exists run, l = run ++ dropSpaces l /\ Forall (fun c => isSpace c = true) run /\
              match dropSpaces l with [] => True | c :: _ => isSpace c = false end.
Proof.
  induction l as [|c l (run & E & F & H)]; simpl.
  - exists []. repeat split; constructor.
  - destruct (isSpace c) eqn:S.
    + exists (c :: run). repeat split; [simpl; congruence | constructor; assumption | exact H].
    + exists []. repeat split; [constructor | exact S].
Qed.

Lemma noLT_app a b : noLT (a ++ b) <-> noLT a /\ noLT b.
Proof. apply Forall_app. Qed.

Lemma endsLine_notDot tail : endsLine tail -> match tail with [] => True | c :: _ => isDot c = false end.
Proof. destruct tail as [|t tail]; simpl; [trivial|]. intros H. unfold isDot. rewrite H. reflexivity. Qed.

Lemma endsLine_atLineEnd tail : endsLine tail -> atLineEnd true tail = true.
Proof. destruct tail as [|t tail]; simpl; [reflexivity|]. intros H. exact H. Qed.

Lemma restRe_match ws : Forall goodWord ws -> forall prev r tail gs k,
  noLT r -> endsLine tail -> cutRest ws r = false ->
  matcher true (restRe ws) prev (r ++ tail) gs k =
  if restOK ws r then k (lastOr prev r) tail gs else None.
Proof.
  induction 1 as [|w ws [Wne Wsp] G IH]; intros prev r tail gs k NL T C.
  - change (restRe []) with (Seq (Rep 0 isDot) (Seq Eol Eps)). cbn [matcher restOK].
    rewrite rep_max.
    + cbn [Nat.leb]. rewrite (endsLine_atLineEnd tail T). reflexivity.
    + unfold isDot. eapply Forall_impl; [|exact NL]. cbv beta. intros c ->. reflexivity.
    + apply endsLine_notDot, T.
    + intros a b E NE. destruct b as [|c b]; [congruence|].
      subst r. apply noLT_app in NL. destruct NL as [_ NL]. inversion NL; subst.
      simpl. rewrite H1. reflexivity.
  - change (restRe (w :: ws)) with (Seq (Rep 1 isSpace) (Seq (Lit w) (restRe ws))).
    cbn [matcher].
    destruct (dropSpaces_split r) as (run & E & F & H).
    cbn [cutRest] in C.
    destruct (dropSpaces r) as [|c' r'] eqn:D; [discriminate|].
    assert (L : rep isSpace 1 prev (r ++ tail)
                  (fun prev' s' =>
                     match strip w prev' s' with
                     | Some (prev'', s'') => matcher true (restRe ws) prev'' s'' gs k
                     | None => None
                     end) =
                if (1 <=? List.length run)%nat
                then match strip w (lastOr prev run) ((c' :: r') ++ tail) with
                     | Some (prev'', s'') => matcher true (restRe ws) prev'' s'' gs k
                     | None => None
                     end
                else None).
    { rewrite E at 1. rewrite <- app_assoc. apply rep_max.
      - exact F.
      - simpl. exact H.
      - intros a b Eab NE. destruct b as [|c b]; [congruence|].
        subst run. apply Forall_app in F. destruct F as [_ F]. inversion F; subst.
        destruct w as [|x w]; [congruence|]. inversion Wsp; subst.
        simpl. destruct (N.eqb c x) eqn:Q; [|reflexivity].
        apply N.eqb_eq in Q. congruence. }
    rewrite L. clear L.
    destruct r as [|c r1]; [simpl in D; discriminate|].
    cbn [restOK]. simpl in D.
    destruct (isSpace c) eqn:Sc.
    + (* a run of at least one white space *)
      destruct run as [|c0 run1]; [simpl in E; congruence|].
      simpl in E. injection E as <- E1.
      cbn [List.length Nat.leb andb]. rewrite D.
      destruct (afterWord w (c' :: r')) as [r2|] eqn:A.
      * rewrite (strip_some w _ _ _ tail A).
        assert (NL2 : noLT r2).
        { apply afterWord_some in A. rewrite E1 in NL. inversion NL; subst.
          apply noLT_app in H3. destruct H3 as [_ H3]. rewrite A in H3.
          apply noLT_app in H3. tauto. }
        rewrite IH; [|exact NL2 | exact T | rewrite D, A in C; exact C].
        destruct (restOK ws r2); [|reflexivity].
        f_equal. apply afterWord_some in A. rewrite E1, A.
        change (c :: run1 ++ w ++ r2) with ((c :: run1) ++ w ++ r2).
        rewrite !lastOr_app. reflexivity.
      * rewrite strip_none; [reflexivity | | exact T | exact A].
        eapply Forall_impl; [|exact Wsp]. apply notLT_of_notSpace.
    + (* no white space at all *)
      injection D as <- <-. destruct run as [|c0 run1]; [reflexivity|].
      simpl in E. injection E as <- _. inversion F; congruence.
Qed.

Lemma wordsRe_not_start w ws prev s :
  atLineStart true prev = false -> matchAt true (wordsRe (w :: ws)) prev s = None.
Proof. intros H. unfold matchAt. cbn [wordsRe matcher]. rewrite H. reflexivity. Qed.

Lemma wordsRe_matchAt w ws prev l tail :
  Forall goodWord (w :: ws) -> atLineStart true prev = true ->
  noLT l -> endsLine tail -> cutShort (w :: ws) l = false ->
  matchAt true (wordsRe (w :: ws)) prev (l ++ tail) =
  if hasWords (w :: ws) l then Some ([], tail) else None.
Proof.
  intros G P NL T C. inversion G as [|? ? [Wne Wsp] G']; subst.
  unfold matchAt. cbn [wordsRe matcher hasWords]. rewrite P.
  cbn [cutShort] in C.
  destruct (afterWord w l) as [r|] eqn:A.
  - rewrite (strip_some w _ _ _ tail A).
    assert (NL2 : noLT r).
    { apply afterWord_some in A. rewrite A in NL. apply noLT_app in NL. tauto. }
    rewrite restRe_match; [|exact G' | exact NL2 | exact T | exact C].
    reflexivity.
  - rewrite strip_none; [reflexivity | | exact T | exact A].
    eapply Forall_impl; [|exact Wsp]. apply notLT_of_notSpace.
Qed.

Lemma scan_skip ml r : forall a prev tail,
  scan ml r (List.length a) prev (a ++ tail) = scan ml r 0 (lastOr prev a) tail.
Proof.
  induction a as [|c a IH]; intros prev tail.
  - reflexivity.
  - simpl. apply IH.
Qed.

Lemma scan_inside w ws : forall l c tail,
  isLineTerminator c = false -> noLT l ->
  scan true (wordsRe (w :: ws)) 0 (Some c) (l ++ tail) =
  map Keep l ++ scan true (wordsRe (w :: ws)) 0 (lastOr (Some c) l) tail.
Proof.
  induction l as [|d l IH]; intros c tail Hc NL.
  - reflexivity.
  - inversion NL; subst. simpl app. cbn [scan].
    rewrite wordsRe_not_start by (simpl; exact Hc).
    cbn [map app]. f_equal. apply IH; assumption.
Qed.

(** Scanning one line from its start. *)
Lemma scan_line w ws prev l tail :
  Forall goodWord (w :: ws) -> atLineStart true prev = true ->
  noLT l -> endsLine tail -> cutShort (w :: ws) l = false ->
  scan true (wordsRe (w :: ws)) 0 prev (l ++ tail) =
  (if hasWords (w :: ws) l then [Hit {| whole := l; groups := [] |}] else map Keep l)
    ++ scan true (wordsRe (w :: ws)) 0 (lastOr prev l) tail.
Proof.
  intros G P NL T C.
  destruct l as [|c l].
  - (* the empty line: nothing to scan, and no word starts here *)
    assert (Hw : hasWords (w :: ws) [] = false).
    { inversion G as [|? ? [Wne _] _]; subst. destruct w; [congruence|reflexivity]. }
    rewrite Hw. reflexivity.
  - pose proof (wordsRe_matchAt w ws prev (c :: l) tail G P NL T C) as M.
    inversion NL; subst.
    destruct (hasWords (w :: ws) (c :: l)).
    + change ((c :: l) ++ tail) with (c :: (l ++ tail)) in *.
      cbn [scan]. rewrite M.
      replace (List.length (c :: l ++ tail) - List.length tail)%nat with (S (List.length l))
        by (cbn [List.length]; rewrite length_app; lia).
      assert (Fw : firstn (S (List.length l)) (c :: l ++ tail) = c :: l).
      { cbn [firstn]. f_equal. rewrite firstn_app, firstn_all, Nat.sub_diag.
        simpl. apply app_nil_r. }
      rewrite Fw. cbn [app]. rewrite scan_skip. reflexivity.
    + change ((c :: l) ++ tail) with (c :: (l ++ tail)) in *.
      cbn [scan]. rewrite M.
      cbn [map app]. rewrite scan_inside by assumption. reflexivity.
Qed.

Lemma flat_map_keep w l : flat_map (emit w) (map Keep l) = l.
Proof. induction l as [|c l IH]; simpl; congruence. Qed.

Lemma scan_end w ws prev : w <> [] -> scan true (wordsRe (w :: ws)) 0 prev [] = [].
Proof.
  intros Wne. cbn [scan]. unfold matchAt. cbn [wordsRe matcher].
  destruct (atLineStart true prev); [|reflexivity].
  destruct w as [|a w]; [congruence|]. reflexivity.
Qed.

Lemma scan_terminator w ws prev t rest :
  goodWord w -> isLineTerminator t = true ->
  scan true (wordsRe (w :: ws)) 0 prev (t :: rest) =
  Keep t :: scan true (wordsRe (w :: ws)) 0 (Some t) rest.
Proof.
  intros [Wne Wsp] Ht. cbn [scan].
  assert (M : matchAt true (wordsRe (w :: ws)) prev (t :: rest) = None).
  { unfold matchAt. cbn [wordsRe matcher].
    destruct (atLineStart true prev); [|reflexivity].
    destruct w as [|a w]; [congruence|]. inversion Wsp; subst. cbn [strip].
    destruct (N.eqb t a) eqn:Q; [|reflexivity].
    apply N.eqb_eq in Q. subst. apply notLT_of_notSpace in H1. congruence. }
  rewrite M. reflexivity.
Qed.

Lemma dropW_pieces w ws l :
  flat_map (emit [])
    (if hasWords (w :: ws) l then [Hit {| whole := l; groups := [] |}] else map Keep l)
  = dropW (w :: ws) l.
Proof.
  unfold dropW. destruct (hasWords (w :: ws) l); [reflexivity | apply flat_map_keep].
Qed.

Lemma joinLines_cons l t ls last :
  joinLines ((l, t) :: ls) last = l ++ t :: joinLines ls last.
Proof.
  unfold joinLines. cbn [flat_map fst snd]. rewrite <- !app_assoc. reflexivity.
Qed.

Lemma pass_lines w ws :
  Forall goodWord (w :: ws) ->
  forall ls last prev,
    atLineStart true prev = true -> wfLines ls last ->
    Forall (fun lt => cutShort (w :: ws) (fst lt) = false) ls ->
    cutShort (w :: ws) last = false ->
    flat_map (emit []) (scan true (wordsRe (w :: ws)) 0 prev (joinLines ls last)) =
    joinLines (map (fun lt => (dropW (w :: ws) (fst lt), snd lt)) ls) (dropW (w :: ws) last).
Proof.
  intros G. pose proof G as G0. inversion G0 as [|? ? Gw _]; subst.
  induction ls as [|[l t] ls IH]; intros last prev P [WL Wlast] CS Clast.
  - unfold joinLines. cbn [flat_map map app].
    rewrite <- (app_nil_r last) at 1.
    rewrite scan_line; [|exact G | exact P | exact Wlast | exact I | exact Clast].
    rewrite scan_end by (apply Gw). rewrite app_nil_r. apply dropW_pieces.
  - inversion WL as [|? ? [NLl Ht] WL']; subst. inversion CS as [|? ? Cl CS']; subst.
    cbn [fst snd] in *.
    rewrite joinLines_cons.
    rewrite scan_line; [|exact G | exact P | exact NLl | exact Ht | exact Cl].
    rewrite scan_terminator; [|exact Gw | exact Ht].
    rewrite flat_map_app, dropW_pieces. cbn [flat_map emit].
    rewrite IH; [|exact Ht | split; assumption | exact CS' | exact Clast].
    cbn [map fst snd]. rewrite joinLines_cons. reflexivity.
Qed.

Lemma replaceWith_emit ml r w s :
  replaceWith ml r w s = flat_map (emit w) (scan ml r 0 None s).
Proof. reflexivity. Qed.

Lemma cutShort_nil ws : goodCmd ws -> cutShort ws [] = false.
Proof.
  intros [Ne G]. destruct ws as [|w ws]; [congruence|]. inversion G as [|? ? [Wne _] _]; subst.
  destruct w; [congruence | reflexivity].
Qed.

Lemma hasWords_nil ws : goodCmd ws -> hasWords ws [] = false.
Proof.
  intros [Ne G]. destruct ws as [|w ws]; [congruence|]. inversion G as [|? ? [Wne _] _]; subst.
  destruct w; [congruence | reflexivity].
Qed.

Lemma dropW_cases ws l : dropW ws l = l \/ dropW ws l = [].
Proof. unfold dropW. destruct (hasWords ws l); auto. Qed.

Lemma passes_lines wss :
  Forall goodCmd wss ->
  forall ls last,
    wfLines ls last ->
    Forall (fun lt => Forall (fun ws => cutShort ws (fst lt) = false) wss) ls ->
    Forall (fun ws => cutShort ws last = false) wss ->
    fold_left (fun inp r => replaceWith true r [] inp) (map wordsRe wss) (joinLines ls last) =
    joinLines (map (fun lt => (dropAll wss (fst lt), snd lt)) ls) (dropAll wss last).
Proof.
  induction 1 as [|ws wss Gc G IH]; intros ls last W CS Clast.
  - cbn [map fold_left]. unfold dropAll. cbn [fold_left]. f_equal.
    rewrite <- (map_id ls) at 1. apply map_ext. intros [l t]. reflexivity.
  - cbn [map fold_left].
    destruct Gc as [Ne Gw]. destruct ws as [|w ws]; [congruence|].
    rewrite replaceWith_emit.
    rewrite pass_lines; [|exact Gw | reflexivity | exact W | | ].
    + rewrite IH.
      * rewrite map_map. reflexivity.
      * destruct W as [WL Wlast]. split.
        -- apply Forall_map. eapply Forall_impl; [|exact WL]. cbv beta.
           intros [l t] [NL Ht]. cbn [fst snd] in *. split; [|exact Ht].
           destruct (dropW_cases (w :: ws) l) as [-> | ->]; [exact NL | constructor].
        -- destruct (dropW_cases (w :: ws) last) as [-> | ->]; [exact Wlast | constructor].
      * apply Forall_map. eapply Forall_impl; [|exact CS]. cbv beta.
        intros [l t] F. cbn [fst snd] in *. inversion F as [|? ? _ F']; subst.
        destruct (dropW_cases (w :: ws) l) as [-> | ->]; [exact F'|].
        eapply Forall_impl; [|exact G]. intros ws2. apply cutShort_nil.
      * inversion Clast as [|? ? _ F']; subst.
        destruct (dropW_cases (w :: ws) last) as [-> | ->]; [exact F'|].
        eapply Forall_impl; [|exact G]. intros ws2. apply cutShort_nil.
    + eapply Forall_impl; [|exact CS]. cbv beta. intros lt F. inversion F; assumption.
    + inversion Clast; assumption.
Qed.

Lemma dropAll_spec wss : Forall goodCmd wss -> forall l,
  dropAll wss l = if existsb (fun ws => hasWords ws l) wss then [] else l.
Proof.
  induction 1 as [|ws wss Gc G IH]; intros l.
  - reflexivity.
  - unfold dropAll. cbn [fold_left existsb]. fold (dropAll wss (dropW ws l)).
    rewrite IH. unfold dropW. destruct (hasWords ws l) eqn:Hw; cbn [orb].
    + destruct (existsb _ wss); reflexivity.
    + reflexivity.
Qed.

Lemma goodCmd_setupWords : Forall goodCmd setupWords.
Proof.
  unfold setupWords, goodCmd, goodWord.
  repeat (constructor; [split; [discriminate|]; repeat (constructor; [split; [discriminate|]; repeat (constructor; [vm_compute; reflexivity|]); constructor |]); constructor |]).
  constructor.
Qed.

Lemma join_split s : joinLines (fst (splitLines s)) (snd (splitLines s)) = s.
Proof.
  induction s as [|c s IH]; [reflexivity|].
  cbn [splitLines]. destruct (splitLines s) as [ls last]. cbn [fst snd] in IH.
  destruct (isLineTerminator c).
  - cbn [fst snd]. rewrite joinLines_cons. cbn [app]. congruence.
  - destruct ls as [|[l t] ls]; cbn [fst snd].
    + unfold joinLines in *. cbn [flat_map app] in *. congruence.
    + rewrite joinLines_cons in *. cbn [app]. congruence.
Qed.

Lemma split_wf s : wfLines (fst (splitLines s)) (snd (splitLines s)).
Proof.
  induction s as [|c s IH].
  - split; constructor.
  - cbn [splitLines]. destruct (splitLines s) as [ls last]. cbn [fst snd] in IH.
    destruct IH as [WL Wlast].
    destruct (isLineTerminator c) eqn:E.
    + split; [|exact Wlast]. constructor; [|exact WL]. split; [constructor | exact E].
    + destruct ls as [|[l t] ls]; cbn [fst snd].
      * split; [constructor|]. constructor; assumption.
      * inversion WL as [|? ? [NL Ht] WL']; subst. cbn [fst snd] in *.
        split; [|exact Wlast]. constructor; [|exact WL']. split; [|exact Ht].
        constructor; assumption.
Qed.

Lemma split_noLT l : noLT l -> forall t rest,
  splitLines (l ++ t :: rest) =
  (if isLineTerminator t then
     let (ls, last) := splitLines rest in ((l, t) :: ls, last)
   else splitLines (l ++ t :: rest)).
Proof.
  induction 1 as [|c l Hc NL IH]; intros t rest.
  - cbn [app splitLines]. destruct (isLineTerminator t); [|reflexivity].
    destruct (splitLines rest); reflexivity.
  - destruct (isLineTerminator t) eqn:Ht; [|reflexivity].
    cbn [app splitLines]. rewrite IH, Ht, Hc.
    destruct (splitLines rest) as [ls last]. reflexivity.
Qed.

Lemma split_last l : noLT l -> splitLines l = ([], l).
Proof.
  induction 1 as [|c l Hc NL IH]; [reflexivity|].
  cbn [splitLines]. rewrite IH, Hc. reflexivity.
Qed.

Lemma split_join ls : forall last, wfLines ls last -> splitLines (joinLines ls last) = (ls, last).
Proof.
  induction ls as [|[l t] ls IH]; intros last [WL Wlast].
  - unfold joinLines. cbn [flat_map app]. apply split_last, Wlast.
  - inversion WL as [|? ? [NL Ht] WL']; subst. cbn [fst snd] in *.
    rewrite joinLines_cons, split_noLT by exact NL. rewrite Ht.
    rewrite IH by (split; assumption). reflexivity.
Qed.

Lemma dropSetup_cases l : dropSetup l = l /\ isSetupLine l = false \/ dropSetup l = [].
Proof. unfold dropSetup. destruct (isSetupLine l); auto. Qed.

(** The sanitizer on a text given by its lines. *)
Lemma sanitize_lines ls last :
  wfLines ls last ->
  Forall (fun l => isCutShort l = false) (map fst ls ++ [last]) ->
  sanitize (joinLines ls last) =
  joinLines (map (fun lt => (dropSetup (fst lt), snd lt)) ls) (dropSetup last).
Proof.
  intros W C. apply Forall_app in C. destruct C as [C Clast].
  inversion Clast as [|? ? Cl _]; subst.
  assert (X : forall l, isCutShort l = false ->
                        Forall (fun ws => cutShort ws l = false) setupWords).
  { intros l H. apply Forall_forall. intros ws I.
    destruct (cutShort ws l) eqn:E; [|reflexivity].
    unfold isCutShort in H. rewrite <- H. symmetry. apply existsb_exists. eauto. }
  unfold sanitize. change dropPatterns with (map wordsRe setupWords).
  rewrite passes_lines; [|exact goodCmd_setupWords | exact W | | apply X, Cl].
  - f_equal.
    + apply map_ext. intros [l t]. cbn [fst snd].
      rewrite dropAll_spec by exact goodCmd_setupWords. reflexivity.
    + rewrite dropAll_spec by exact goodCmd_setupWords. reflexivity.
  - rewrite Forall_map in C. eapply Forall_impl; [|exact C]. cbv beta. intros lt. apply X.
Qed.

End SanitizerFacts.

(** ** Claims about the sanitizer *)

Section SanitizerClaims.

(** C8 (as amended).  For every input text in which no line is only the
    beginning of a setup command (the first words of one of the five
    commands, but not all of them, followed by white space at most), the
    sanitizer empties every line that starts with the words of one of the
    five commands [mkdir github_painter], [cd github_painter], [git init],
    [git remote add origin], [git pull origin], the words separated by white
    space, and leaves every other line, blank lines included, as it is.  An
    emptied line keeps its line terminator, so a blank line stays in its
    place. *)
Theorem sanitize_by_lines s :
  Forall (fun l => isCutShort l = false) (linesOf s) ->
  sanitize s = mapLines dropSetup s.
Proof.
  unfold linesOf, mapLines. pose proof (join_split s) as J. pose proof (split_wf s) as W.
  destruct (splitLines s) as [ls last]. cbn [fst snd] in *. intros C.
  rewrite <- J at 1. apply sanitize_lines; assumption.
Qed.

(** A text with three setup lines among other lines, none of them cut
    short: the setup lines become blank lines, the rest is untouched. *)
Lemma sanitize_by_lines_witness :
  let text := u16 ("mkdir github_painter x" ++ lf ++ "git  init" ++ lf ++ lf ++
                   " git init" ++ lf ++ "echo hi" ++ lf ++ "git pull origin main") in
  Forall (fun l => isCutShort l = false) (linesOf text) /\
  sanitize text = u16 (lf ++ lf ++ lf ++ " git init" ++ lf ++ "echo hi" ++ lf) /\
  sanitize text = mapLines dropSetup text.
Proof.
  intros text.
  assert (C : Forall (fun l => isCutShort l = false) (linesOf text)).
  { vm_compute. repeat constructor. }
  split; [exact C|]. split; [vm_compute; reflexivity|].
  apply (sanitize_by_lines text C).
Defined.

(** C8, the claim as stated fails.  In the two-line text [mkdir] /
    [github_painter] neither line is a setup line, yet the white space of
    the first pattern spans the line feed and the sanitizer removes both
    lines, line feed included. *)
Lemma sanitize_joins_lines :
  let text := u16 ("mkdir" ++ lf ++ "github_painter") in
  linesOf text = [u16 "mkdir"; u16 "github_painter"] /\
  map isSetupLine (linesOf text) = [false; false] /\
  mapLines dropSetup text = text /\
  sanitize text = [] /\
  sanitize text <> mapLines dropSetup text.
Proof.
  repeat split; try (vm_compute; reflexivity).
  vm_compute. discriminate.
Qed.

(** C9 (as amended).  For every input text in which no line is only the
    beginning of a setup command, running the sanitizer on its own output
    gives that output again, and no line of the output starts with the
    words of a setup command. *)
Theorem sanitize_idempotent s :
  Forall (fun l => isCutShort l = false) (linesOf s) ->
  sanitize (sanitize s) = sanitize s /\
  Forall (fun l => isSetupLine l = false) (linesOf (sanitize s)).
Proof.
  unfold linesOf at 1. pose proof (join_split s) as J. pose proof (split_wf s) as W.
  destruct (splitLines s) as [ls last]. cbn [fst snd] in *. intros C.
  rewrite <- J. rewrite (sanitize_lines ls last W C).
  set (ls' := map (fun lt => (dropSetup (fst lt), snd lt)) ls).
  set (last' := dropSetup last).
  assert (W' : wfLines ls' last').
  { destruct W as [WL Wlast]. split.
    - apply Forall_map. eapply Forall_impl; [|exact WL]. cbv beta.
      intros [l t] [NL Ht]. cbn [fst snd] in *. split; [|exact Ht].
      destruct (dropSetup_cases l) as [[-> _] | ->]; [exact NL | constructor].
    - subst last'. destruct (dropSetup_cases last) as [[-> _] | ->]; [exact Wlast | constructor]. }
  assert (S' : Forall (fun l => isSetupLine l = false) (map fst ls' ++ [last'])).
  { apply Forall_app. split.
    - subst ls'. rewrite map_map. apply Forall_map, Forall_forall. intros [l t] _. cbn [fst].
      destruct (dropSetup_cases l) as [[-> H] | ->]; [exact H | reflexivity].
    - constructor; [|constructor]. subst last'.
      destruct (dropSetup_cases last) as [[-> H] | ->]; [exact H | reflexivity]. }
  assert (C' : Forall (fun l => isCutShort l = false) (map fst ls' ++ [last'])).
  { apply Forall_app in C. destruct C as [C Clast]. apply Forall_app. split.
    - subst ls'. rewrite map_map. apply Forall_map. rewrite Forall_map in C.
      eapply Forall_impl; [|exact C]. cbv beta. intros [l t] H. cbn [fst] in *.
      destruct (dropSetup_cases l) as [[-> _] | ->]; [exact H | reflexivity].
    - inversion Clast; subst. constructor; [|constructor]. subst last'.
      destruct (dropSetup_cases last) as [[-> _] | ->]; [assumption | reflexivity]. }
  split.
  - rewrite (sanitize_lines ls' last' W' C'). f_equal.
    + rewrite <- (map_id ls') at 2. apply map_ext_Forall.
      apply Forall_app in S'. destruct S' as [S' _]. rewrite Forall_map in S'.
      eapply Forall_impl; [|exact S']. cbv beta. intros [l t] H. cbn [fst snd] in *.
      unfold dropSetup. rewrite H. reflexivity.
    + apply Forall_app in S'. destruct S' as [_ S']. inversion S'; subst.
      unfold dropSetup at 1. rewrite H1. reflexivity.
  - unfold linesOf. rewrite (split_join ls' last' W'). exact S'.
Qed.

(** The same text as above: its lines are not cut short, and a second pass
    changes nothing. *)
Lemma sanitize_idempotent_witness :
  let text := u16 ("mkdir github_painter x" ++ lf ++ "git  init" ++ lf ++ lf ++
                   " git init" ++ lf ++ "echo hi" ++ lf ++ "git pull origin main") in
  Forall (fun l => isCutShort l = false) (linesOf text) /\
  sanitize (sanitize text) = sanitize text /\
  Forall (fun l => isSetupLine l = false) (linesOf (sanitize text)).
Proof.
  intros text.
  assert (C : Forall (fun l => isCutShort l = false) (linesOf text)).
  { vm_compute. repeat constructor. }
  split; [exact C|].
  apply (sanitize_idempotent text C).
Defined.

(** C9, the claim as stated fails.  In the three-line text [mkdir] /
    [git init] / [github_painter] the first pass empties the middle line
    only; in its output the first pattern matches across the two line feeds,
    and the second pass removes everything. *)
Lemma sanitize_twice_differs :
  let text := u16 ("mkdir" ++ lf ++ "git init" ++ lf ++ "github_painter") in
  sanitize text = u16 ("mkdir" ++ lf ++ lf ++ "github_painter") /\
  sanitize (sanitize text) = [] /\
  sanitize (sanitize text) <> sanitize text.
Proof.
  repeat split; try (vm_compute; reflexivity).
  vm_compute. discriminate.
Qed.

End SanitizerClaims.

(** * Further properties of the script *)

(** ** Dates *)

Section DateFacts.

Open Scope Z_scope.

Lemma Day_shift t k : JsDate.Day (t + k * JsDate.msPerDay) = JsDate.Day t + k.
Proof. unfold JsDate.Day, JsDate.msPerDay. rewrite Z.div_add by lia. reflexivity. Qed.

Lemma WeekDay_range t : 0 <= JsDate.WeekDay t < 7.
Proof. unfold JsDate.WeekDay. apply Z.mod_pos_bound. lia. Qed.

Lemma weekStart_props t :
  JsDate.getUTCDay (weekStartUTC t) = 0 /\
  weekStartUTC t <= t < weekStartUTC t + 7 * 86400000 /\
  (weekStartUTC t) mod 86400000 = t mod 86400000.
Proof.
  unfold weekStartUTC, JsDate.getUTCDay. cbv zeta.
  pose proof (WeekDay_range t) as R.
  set (wd := JsDate.WeekDay t) in *.
  split; [|split].
  - unfold JsDate.WeekDay.
    replace (t - wd * 86400000) with (t + (- wd) * JsDate.msPerDay) by (unfold JsDate.msPerDay; lia).
    rewrite Day_shift. subst wd. unfold JsDate.WeekDay.
    set (d := JsDate.Day t).
    pose proof (Z.mod_pos_bound (d + 4) 7 ltac:(lia)).
    pose proof (Z.div_mod (d + 4) 7 ltac:(lia)).
    replace (d + - ((d + 4) mod 7) + 4) with (7 * ((d + 4) / 7)) by lia.
    rewrite Z.mul_comm. apply Z.mod_mul. lia.
  - lia.
  - replace (t - wd * 86400000) with (t + (- wd) * 86400000) by lia.
    apply Z.mod_add. lia.
Qed.

Lemma YearFromDay_spec d :
  JsDate.DayFromYear (JsDate.YearFromDay d) <= d < JsDate.DayFromYear (JsDate.YearFromDay d + 1).
Proof.
  unfold JsDate.YearFromDay. cbv zeta.
  set (y := 1970 + d * 400 / 146097).
  assert (Y : 146097 * (y - 1970) <= 400 * d < 146097 * (y - 1970) + 146097).
  { subst y. pose proof (Z.div_mod (d * 400) 146097 ltac:(lia)).
    pose proof (Z.mod_pos_bound (d * 400) 146097 ltac:(lia)). lia. }
  clearbody y.
  destruct (JsDate.DayFromYear (y + 1) <=? d) eqn:E1.
  - apply Z.leb_le in E1. split; [exact E1|].
    unfold JsDate.DayFromYear in *. Z.div_mod_to_equations; lia.
  - apply Z.leb_gt in E1.
    destruct (JsDate.DayFromYear y <=? d) eqn:E2.
    + apply Z.leb_le in E2. lia.
    + apply Z.leb_gt in E2. replace (y - 1 + 1) with y by lia. split; [|exact E2].
      unfold JsDate.DayFromYear in *. Z.div_mod_to_equations; lia.
Qed.

Lemma year_length y :
  JsDate.DayFromYear (y + 1) - JsDate.DayFromYear y = if JsDate.InLeapYear y then 366 else 365.
Proof.
  unfold JsDate.DayFromYear, JsDate.InLeapYear.
  destruct (y mod 4 =? 0) eqn:E4; destruct (y mod 100 =? 0) eqn:E100;
    destruct (y mod 400 =? 0) eqn:E400; cbn [andb orb negb];
    rewrite ?Z.eqb_eq, ?Z.eqb_neq in *; Z.div_mod_to_equations; lia.
Qed.

Lemma range_check (f : Z -> bool) (a len : nat) :
  forallb f (map Z.of_nat (seq a len)) = true ->
  forall n, Z.of_nat a <= n < Z.of_nat a + Z.of_nat len -> f n = true.
Proof.
  intros H n R. rewrite forallb_forall in H. apply H.
  apply in_map_iff. exists (Z.to_nat n). split; [lia|].
  apply in_seq. lia.
Qed.


Lemma month_spec (leap : bool) (diy : Z) :
  0 <= diy < (if leap then 366 else 365) ->
  let m := Z.of_nat (List.length
              (filter (fun m => JsDate.monthStart leap m <=? diy)
                      [1; 2; 3; 4; 5; 6; 7; 8; 9; 10; 11])) in
  0 <= m <= 11 /\
  1 <= diy - JsDate.monthStart leap m + 1 <= 31.
Proof.
  intros R. cbv zeta.
  set (chk := fun (leap : bool) (diy : Z) =>
         let m := Z.of_nat (List.length
                    (filter (fun m => JsDate.monthStart leap m <=? diy)
                            [1; 2; 3; 4; 5; 6; 7; 8; 9; 10; 11])) in
         (0 <=? m) && (m <=? 11) &&
         (1 <=? diy - JsDate.monthStart leap m + 1) &&
         (diy - JsDate.monthStart leap m + 1 <=? 31)).
  assert (C : chk leap diy = true).
  { destruct leap.
    - apply (range_check (chk true) 0 366); [vm_compute; reflexivity | lia].
    - apply (range_check (chk false) 0 365); [vm_compute; reflexivity | lia]. }
  unfold chk in C. cbv zeta in C.
  repeat (apply andb_prop in C; destruct C as [C ?]).
  rewrite ?Z.leb_le in *. lia.
Qed.

Lemma civil_roundtrip d :
  let y := JsDate.YearFromDay d in
  let m := JsDate.MonthFromDay d in
  let dt := JsDate.DateFromDay d in
  0 <= m <= 11 /\ 1 <= dt <= 31 /\ JsDate.MakeDay y m dt = d.
Proof.
  cbv zeta. unfold JsDate.DateFromDay, JsDate.MonthFromDay. cbv zeta.
  pose proof (YearFromDay_spec d) as Y. pose proof (year_length (JsDate.YearFromDay d)) as L.
  set (y := JsDate.YearFromDay d) in *.
  set (diy := d - JsDate.DayFromYear y).
  assert (R : 0 <= diy < (if JsDate.InLeapYear y then 366 else 365)).
  { subst diy. destruct (JsDate.InLeapYear y); lia. }
  pose proof (month_spec (JsDate.InLeapYear y) diy R) as M. cbv zeta in M.
  set (m := Z.of_nat _) in *.
  destruct M as [M1 M2].
  split; [exact M1|]. split.
  - subst diy. lia.
  - unfold JsDate.MakeDay. cbv zeta.
    rewrite (Z.div_small m 12) by lia. rewrite (Z.mod_small m 12) by lia.
    rewrite Z.add_0_r. subst diy. lia.
Qed.

Lemma two_digits n :
  0 <= n <= 99 ->
  match padStart2 (ofNumber n) with
  | [a; b] => isDigit a && isDigit b && (toNumber [a; b] =? n)
  | _ => false
  end = true.
Proof.
  intros R.
  apply (range_check (fun n => match padStart2 (ofNumber n) with
                               | [a; b] => isDigit a && isDigit b && (toNumber [a; b] =? n)
                               | _ => false
                               end) 0 100); [vm_compute; reflexivity | lia].
Qed.

Lemma four_digits n :
  1000 <= n <= 9999 ->
  match ofNumber n with
  | [a; b; c; d] =>
      isDigit a && isDigit b && isDigit c && isDigit d && (toNumber [a; b; c; d] =? n)
  | _ => false
  end = true.
Proof.
  intros R.
  apply (range_check (fun n => match ofNumber n with
                               | [a; b; c; d] =>
                                   isDigit a && isDigit b && isDigit c && isDigit d
                                   && (toNumber [a; b; c; d] =? n)
                               | _ => false
                               end) (Z.to_nat 1000) (Z.to_nat 9000)); [vm_compute; reflexivity | lia].
Qed.

Lemma dow_name wd :
  0 <= wd <= 6 ->
  match at_ DOW wd with
  | [a; b; c] => isUpper a && isLower b && isLower c
  | _ => false
  end = true.
Proof.
  intros R.
  apply (range_check (fun wd => match at_ DOW wd with
                                | [a; b; c] => isUpper a && isLower b && isLower c
                                | _ => false
                                end) 0 7); [vm_compute; reflexivity | lia].
Qed.

Lemma mon_name m :
  0 <= m <= 11 ->
  match at_ MON m with
  | [a; b; c] => isUpper a && isLower b && isLower c && (indexOf [a; b; c] MON =? m)
  | _ => false
  end = true.
Proof.
  intros R.
  apply (range_check (fun m => match at_ MON m with
                               | [a; b; c] => isUpper a && isLower b && isLower c
                                              && (indexOf [a; b; c] MON =? m)
                               | _ => false
                               end) 0 12); [vm_compute; reflexivity | lia].
Qed.

Lemma fmt_parse_day t :
  1000 <= JsDate.getUTCFullYear (t + 43200000) <= 9999 ->
  parseFullDayUTC (fmtUTCNoon t) = Ok (JsDate.Day (t + 43200000) * 86400000) /\
  dayHead (fmtUTCNoon t) = true /\
  List.length (fmtUTCNoon t) = 39%nat.
Proof.
  intros Y. rewrite parseFullDayUTC_spec.
  unfold fmtUTCNoon. cbv zeta. change (12 * 3600 * 1000) with 43200000.
  unfold JsDate.getUTCDay, JsDate.getUTCMonth, JsDate.getUTCDate, JsDate.getUTCFullYear in *.
  set (d := JsDate.Day (t + 43200000)) in *.
  destruct (civil_roundtrip d) as (M & D & R). 
  pose proof (dow_name (JsDate.WeekDay (t + 43200000)) ltac:(pose proof (WeekDay_range (t + 43200000)); lia)) as HW.
  pose proof (mon_name _ M) as HM.
  pose proof (two_digits (JsDate.DateFromDay d) ltac:(lia)) as HD.
  pose proof (four_digits _ Y) as HY.
  destruct (at_ DOW _) as [|w1 [|w2 [|w3 [|? ?]]]]; try discriminate.
  destruct (at_ MON _) as [|m1 [|m2 [|m3 [|? ?]]]]; try discriminate.
  destruct (padStart2 _) as [|d1 [|d2 [|? ?]]]; try discriminate.
  destruct (ofNumber _) as [|y1 [|y2 [|y3 [|y4 [|? ?]]]]]; try discriminate.
  repeat match goal with
         | H : _ && _ = true |- _ => rewrite andb_true_iff in H
         | H : _ /\ _ |- _ => destruct H
         end.
  change (u16 " 12:00:00 GMT+0000 (UTC)") with (32%N :: u16 "12:00:00 GMT+0000 (UTC)").
  change (u16 " ") with [32%N].
  cbn [app dayHead firstn skipn].
  change ((32 =? 32)%N) with true.
  repeat match goal with H : _ = true |- _ =>
    match type of H with
    | isUpper _ = true => rewrite H
    | isLower _ = true => rewrite H
    | isDigit _ = true => rewrite H
    end end.
  cbn [andb].
  repeat match goal with H : (_ =? _) = true |- _ => apply Z.eqb_eq in H; rewrite H end.
  split; [|split; [reflexivity | reflexivity]].
  f_equal. unfold JsDate.UTC.
  replace ((0 <=? JsDate.YearFromDay d) && (JsDate.YearFromDay d <=? 99)) with false
    by (symmetry; apply andb_false_iff; right; apply Z.leb_gt; lia).
  rewrite R. reflexivity.
Qed.

End DateFacts.

(** ** Dates, weekdays and the window *)

Section WindowProperties.

Open Scope Z_scope.

Lemma UTC_midnight y m d : (JsDate.UTC y m d) mod 86400000 = 0.
Proof. unfold JsDate.UTC, JsDate.msPerDay. cbv zeta. apply Z.mod_mul. lia. Qed.

Lemma Day_of_multiple k : JsDate.Day (k * 86400000) = k.
Proof. unfold JsDate.Day, JsDate.msPerDay. apply Z.div_mul. lia. Qed.

(** X1.  [weekStartUTC] returns the Sunday of the week of its argument:
    the result is a Sunday, it is at most six days (less than seven) before
    the argument and never after it, and it has the same time of day. *)
Theorem weekStartUTC_is_sunday t :
  JsDate.getUTCDay (weekStartUTC t) = 0 /\
  weekStartUTC t <= t < weekStartUTC t + 7 * 86400000 /\
  (weekStartUTC t) mod 86400000 = t mod 86400000.
Proof. exact (weekStart_props t). Qed.


(** X3.  What [fmtUTCNoon] writes, [parseFullDayUTC] reads back: for a
    time whose noon falls in a year of four digits, the formatted string
    parses, without an error, to the midnight of the day formatted; for a
    midnight that is the time itself.  The string has 39 code units. *)
Theorem fmt_parse_roundtrip t :
  1000 <= JsDate.getUTCFullYear (t + 43200000) <= 9999 ->
  parseFullDayUTC (fmtUTCNoon t) = Ok (JsDate.Day (t + 43200000) * 86400000) /\
  (t mod 86400000 = 0 -> parseFullDayUTC (fmtUTCNoon t) = Ok t) /\
  List.length (fmtUTCNoon t) = 39%nat.
Proof.
  intros Y. destruct (fmt_parse_day t Y) as (P & _ & L).
  split; [exact P|]. split; [|exact L].
  intros M. rewrite P. f_equal.
  unfold JsDate.Day, JsDate.msPerDay.
  pose proof (Z.div_mod t 86400000 ltac:(lia)) as E. rewrite M in E.
  replace (t + 43200000) with (43200000 + (t / 86400000) * 86400000) by lia.
  rewrite Z.div_add by lia. rewrite (Z.div_small 43200000) by lia. lia.
Qed.

(** 7 November 2026. *)
Lemma fmt_parse_roundtrip_witness :
  parseFullDayUTC (fmtUTCNoon 1794009600000) = Ok 1794009600000 /\
  fmtUTCNoon 1794009600000 = u16 "Sat Nov 07 2026 12:00:00 GMT+0000 (UTC)".
Proof.
  split; [|vm_compute; reflexivity].
  destruct (fmt_parse_roundtrip 1794009600000) as (_ & R & _).
  - vm_compute. split; discriminate.
  - apply R. reflexivity.
Defined.

(** The weekday of a remapped day, for any grid start and window start
    that are Sundays at midnight. *)
Lemma remapOne_weekday start ws shiftCols fullStr t :
  JsDate.getUTCDay start = 0 -> start mod 86400000 = 0 ->
  JsDate.getUTCDay ws = 0 -> ws mod 86400000 = 0 ->
  parseFullDayUTC fullStr = Ok t -> start <= t ->
  exists newDay,
    remapOne start shiftCols ws fullStr = Ok (fmtUTCNoon newDay) /\
    newDay = ws + ((t - start) / 86400000 + 7 * shiftCols) * 86400000 /\
    JsDate.getUTCDay (newDay + 12 * 3600 * 1000) = JsDate.getUTCDay t /\
    firstn 3 (fmtUTCNoon newDay) = at_ DOW (JsDate.getUTCDay t).
Proof.
  intros Gs Gm Ws Wm P L.
  assert (Tm : t mod 86400000 = 0).
  { rewrite parseFullDayUTC_spec in P. destruct (dayHead fullStr); [|discriminate].
    injection P as <-. apply UTC_midnight. }
  remember ((t - start) / 86400000) as k eqn:Dk.
  assert (Ek : t = start + k * 86400000).
  { subst k. pose proof (Z.div_mod (t - start) 86400000 ltac:(lia)) as E.
    assert ((t - start) mod 86400000 = 0).
    { rewrite Zminus_mod, Tm, Gm. reflexivity. }
    lia. }
  assert (K : 0 <= k) by (subst k; apply Z.div_pos; lia).
  exists (ws + (k + 7 * shiftCols) * 86400000).
  assert (R : fromColRow (col (toColRow k) + shiftCols) (row (toColRow k)) = k + 7 * shiftCols).
  { unfold toColRow, fromColRow. cbn [col row].
    rewrite Z.rem_mod_nonneg by lia.
    pose proof (Z.div_mod k 7 ltac:(lia)). lia. }
  assert (W : JsDate.getUTCDay (ws + (k + 7 * shiftCols) * 86400000 + 43200000)
              = JsDate.getUTCDay t).
  { unfold JsDate.getUTCDay, JsDate.WeekDay, JsDate.Day, JsDate.msPerDay in *.
    pose proof (Z.div_mod ws 86400000 ltac:(lia)) as Ew. rewrite Wm in Ew.
    pose proof (Z.div_mod start 86400000 ltac:(lia)) as Eg. rewrite Gm in Eg.
    replace (ws + (k + 7 * shiftCols) * 86400000 + 43200000)
      with (43200000 + (ws / 86400000 + k + 7 * shiftCols) * 86400000) by lia.
    rewrite Z.div_add by lia. rewrite (Z.div_small 43200000) by lia.
    rewrite Ek. replace (start + k * 86400000) with (0 + (start / 86400000 + k) * 86400000) by lia.
    rewrite Z.div_add by lia. rewrite (Z.div_small 0) by lia.
    clear - Gs Ws. Z.div_mod_to_equations. lia. }
  split; [|split; [reflexivity|split]].
  - unfold remapOne, dayIndex, bind. rewrite P, <- Dk, R. reflexivity.
  - exact W.
  - unfold fmtUTCNoon. cbv zeta. change (12 * 3600 * 1000) with 43200000. rewrite W.
    assert (Rg : 0 <= JsDate.getUTCDay t <= 6)
      by (pose proof (WeekDay_range t); unfold JsDate.getUTCDay; lia).
    pose proof (dow_name (JsDate.getUTCDay t) Rg) as N.
    destruct (at_ DOW (JsDate.getUTCDay t)) as [|a [|b [|c [|? ?]]]]; try discriminate.
    reflexivity.
Qed.

(** X4.  [remapOne] keeps the weekday.  With the grid start of 2019 and
    the window start of a run at any time [now], a date string that parses
    to a day on or after the grid start is mapped, whatever the shift, to a
    day of the same weekday, lying a whole number of weeks plus the old
    day index after the window start; the text written starts with the name
    of that weekday. *)
Theorem remap_keeps_weekday now shiftCols fullStr t :
  let start2019 := gridStartUTC 2019 in
  let nowUTC := JsDate.UTC (JsDate.getUTCFullYear now) (JsDate.getUTCMonth now)
                           (JsDate.getUTCDate now) in
  let windowStartUTC := weekStartUTC nowUTC - (GRID_WEEKS - 1) * 7 * 86400000 in
  parseFullDayUTC fullStr = Ok t -> start2019 <= t ->
  exists newDay,
    remapOne start2019 shiftCols windowStartUTC fullStr = Ok (fmtUTCNoon newDay) /\
    newDay = windowStartUTC + ((t - start2019) / 86400000 + 7 * shiftCols) * 86400000 /\
    JsDate.getUTCDay (newDay + 12 * 3600 * 1000) = JsDate.getUTCDay t /\
    firstn 3 (fmtUTCNoon newDay) = at_ DOW (JsDate.getUTCDay t).
Proof.
  intros start2019 nowUTC windowStartUTC P L.
  assert (Gs : JsDate.getUTCDay (gridStartUTC 2019) = 0) by (vm_compute; reflexivity).
  assert (Gm : (gridStartUTC 2019) mod 86400000 = 0) by (vm_compute; reflexivity).
  destruct (weekStart_props nowUTC) as (Ws & _ & Wm).
  assert (Um : nowUTC mod 86400000 = 0) by apply UTC_midnight.
  rewrite Um in Wm. clearbody nowUTC.
  assert (Ws' : JsDate.getUTCDay windowStartUTC = 0).
  { subst windowStartUTC. generalize dependent (weekStartUTC nowUTC). intros w Ws Wm.
    unfold JsDate.getUTCDay, JsDate.WeekDay, JsDate.Day, JsDate.msPerDay, GRID_WEEKS in *.
    replace (w - (53 - 1) * 7 * 86400000) with (w + (-364) * 86400000) by lia.
    rewrite Z.div_add by lia. clear - Ws. Z.div_mod_to_equations. lia. }
  assert (Wm' : windowStartUTC mod 86400000 = 0).
  { subst windowStartUTC. unfold GRID_WEEKS.
    replace (weekStartUTC nowUTC - (53 - 1) * 7 * 86400000)
      with (weekStartUTC nowUTC + (-364) * 86400000) by lia.
    rewrite Z.mod_add by lia. exact Wm. }
  clearbody windowStartUTC. subst start2019.
  generalize dependent (gridStartUTC 2019). intros start Gs Gm P' .
  apply remapOne_weekday; assumption.
Qed.

(** Monday 7 January 2019 under shift 25 and the window of 7 November
    2026 is again a Monday. *)
Lemma remap_keeps_weekday_witness :
  let s := u16 "Mon Jan 07 2019 00:00:00 GMT-0500 (EST)" in
  exists newDay,
    remapOne (gridStartUTC 2019) 25 1762041600000 s = Ok (fmtUTCNoon newDay) /\
    JsDate.getUTCDay (newDay + 12 * 3600 * 1000) = 1 /\
    firstn 3 (fmtUTCNoon newDay) = u16 "Mon".
Proof.
  intros s.
  destruct (remap_keeps_weekday 1794009600000 25 s 1546819200000) as (nd & A & B & C & D).
  - vm_compute. reflexivity.
  - vm_compute. discriminate.
  - exists nd. split; [exact A|]. split; [rewrite C | rewrite D]; vm_compute; reflexivity.
Defined.

(** X5.  A drawing that is not wider than the window is centred: the
    number of free columns left of it is half the free columns, rounded
    down, and the free columns right of it are as many or one more. *)
Theorem centered_when_fits p0 ps todayRow :
  let minCol := mathMin (col p0) (map col ps) in
  let maxCol := mathMax (col p0) (map col ps) in
  let width := maxCol - minCol + 1 in
  let s := planShift p0 ps todayRow in
  width <= GRID_WEEKS ->
  minCol + s = (GRID_WEEKS - width) / 2 /\
  0 <= (rightmostCol - (maxCol + s)) - (minCol + s) <= 1.
Proof.
  intros minCol maxCol width s W. subst s. rewrite planShift_clamped.
  fold minCol maxCol.
  assert (L : minCol <= maxCol).
  { pose proof (col_between p0 ps p0 (or_introl eq_refl)). subst minCol maxCol. lia. }
  destruct (clamped_fits minCol maxCol L W) as (E & _ & _ & _).
  rewrite E. unfold rightmostCol, GRID_WEEKS in *. subst width.
  clearbody minCol maxCol. clear E.
  split; [lia|]. Z.div_mod_to_equations. lia.
Qed.

(** Columns 3 to 8: 23 free columns on the left, 24 on the right. *)
Lemma centered_when_fits_witness :
  let p0 := {| col := 3; row := 6 |} in
  let ps := [ {| col := 5; row := 1 |}; {| col := 8; row := 0 |} ] in
  let s := planShift p0 ps 3 in
  3 + s = 23 /\ rightmostCol - (8 + s) = 24.
Proof.
  intros p0 ps s.
  destruct (centered_when_fits p0 ps 3) as (A & B).
  - vm_compute. discriminate.
  - cbv zeta in A, B. fold s in A, B.
    change (mathMin (col p0) (map col ps)) with 3 in *.
    change (mathMax (col p0) (map col ps)) with 8 in *.
    change ((GRID_WEEKS - (8 - 3 + 1)) / 2) with 23 in A.
    unfold rightmostCol, GRID_WEEKS in *. lia.
Defined.

(** X6.  In a run the future-avoidance loop never changes the shift: on
    the shift that centering and clamping produce, its guard is false at
    once, so the loop exits after no iteration and the shift of the run is
    the centred and clamped one, whatever the current weekday. *)
Theorem future_pass_never_shifts p0 ps todayRow :
  let minCol := mathMin (col p0) (map col ps) in
  let maxCol := mathMax (col p0) (map col ps) in
  planShift p0 ps todayRow = clamped minCol maxCol /\
  whileAvoid (p0 :: ps) minCol todayRow 0 (clamped minCol maxCol) (clamped minCol maxCol) /\
  forall n final,
    whileAvoid (p0 :: ps) minCol todayRow n (clamped minCol maxCol) final ->
    n = 0%nat /\ final = clamped minCol maxCol.
Proof.
  intros minCol maxCol.
  pose proof (guard_false_on_entry p0 ps todayRow) as G. cbv zeta in G. fold minCol maxCol in G.
  assert (W0 : whileAvoid (p0 :: ps) minCol todayRow 0 (clamped minCol maxCol) (clamped minCol maxCol))
    by (constructor; exact G).
  split; [apply planShift_clamped|]. split; [exact W0|].
  intros n final W. destruct (whileAvoid_functional _ _ _ _ _ _ W0 _ _ W) as [<- <-].
  split; reflexivity.
Qed.

Lemma mathMax_in xs : forall x, In (mathMax x xs) (x :: xs).
Proof.
  unfold mathMax. induction xs as [|y xs IH]; intros x; [left; reflexivity|].
  cbn [fold_left]. destruct (IH (Z.max x y)) as [E | E].
  - destruct (Z.max_spec x y) as [[_ M] | [_ M]]; rewrite M in *; rewrite <- E;
      [right; left; reflexivity | left; reflexivity].
  - right; right; exact E.
Qed.

Lemma mathMin_in xs : forall x, In (mathMin x xs) (x :: xs).
Proof.
  unfold mathMin. induction xs as [|y xs IH]; intros x; [left; reflexivity|].
  cbn [fold_left]. destruct (IH (Z.min x y)) as [E | E].
  - destruct (Z.min_spec x y) as [[_ M] | [_ M]]; rewrite M in *; rewrite <- E;
      [left; reflexivity | right; left; reflexivity].
  - right; right; exact E.
Qed.

(** X7.  If all anchor day indices lie in the 53 columns of the grid
    (0 to 370), every anchor is mapped to a day index between 0 and 370
    from the window start, that is into the 53 weeks of the window; the new
    index is the old one plus a whole number of weeks, and the row is the
    same. *)
Theorem mapped_days_in_window i0 is_ todayRow i :
  Forall (fun j => 0 <= j <= 370) (i0 :: is_) ->
  In i (i0 :: is_) ->
  let s := planShift (toColRow i0) (map toColRow is_) todayRow in
  0 <= remapIdx s i <= 370 /\
  remapIdx s i = i + 7 * s /\
  row (toColRow (remapIdx s i)) = row (toColRow i).
Proof.
  intros F I s.
  assert (Cb : forall j, 0 <= j <= 370 -> 0 <= col (toColRow j) <= 52 /\ 0 <= row (toColRow j) <= 6
                                       /\ j = col (toColRow j) * 7 + row (toColRow j)).
  { intros j R. unfold toColRow. cbn [col row]. rewrite Z.rem_mod_nonneg by lia.
    Z.div_mod_to_equations. lia. }
  set (p0 := toColRow i0) in *. set (ps := map toColRow is_) in *.
  assert (Ip : In (toColRow i) (p0 :: ps)).
  { change (p0 :: ps) with (map toColRow (i0 :: is_)). apply in_map, I. }
  assert (Wd : mathMax (col p0) (map col ps) - mathMin (col p0) (map col ps) + 1 <= GRID_WEEKS).
  { assert (A : forall c, In c (col p0 :: map col ps) -> 0 <= c <= 52).
    { intros c Hc. change (col p0 :: map col ps) with (map col (map toColRow (i0 :: is_))) in Hc.
      rewrite map_map in Hc. apply in_map_iff in Hc. destruct Hc as (j & <- & Hj).
      rewrite Forall_forall in F. apply Cb, F, Hj. }
    pose proof (A _ (mathMax_in (map col ps) (col p0))).
    pose proof (A _ (mathMin_in (map col ps) (col p0))).
    unfold GRID_WEEKS. lia. }
  pose proof (planShift_fits p0 ps todayRow (toColRow i) Wd Ip) as B. fold s in B.
  rewrite Forall_forall in F. destruct (Cb i (F i I)) as (C1 & C2 & C3).
  unfold shiftCoord in B. cbn [col] in B. unfold rightmostCol, GRID_WEEKS in B.
  assert (E : remapIdx s i = i + 7 * s).
  { unfold remapIdx, shiftCoord, fromColRow. cbn [col row]. lia. }
  split; [|split; [exact E|]].
  - rewrite E. lia.
  - rewrite E. unfold toColRow. cbn [row].
    rewrite !Z.rem_mod_nonneg by lia.
    Z.div_mod_to_equations. lia.
Qed.

(** Anchors at indices 8, 92 and 366. *)
Lemma mapped_days_in_window_witness :
  let s := planShift (toColRow 8) (map toColRow [92; 366]) 6 in
  0 <= remapIdx s 92 <= 370 /\ row (toColRow (remapIdx s 92)) = 1.
Proof.
  cbv zeta.
  destruct (mapped_days_in_window 8 [92; 366] 6 92) as (A & _ & C).
  - repeat constructor; lia.
  - right. left. reflexivity.
  - split; [exact A | rewrite C; reflexivity].
Defined.

Lemma indexOf_MON m : In m MON -> 0 <= indexOf m MON <= 11.
Proof.
  intros H. unfold MON in H. cbn [map In] in H.
  repeat (destruct H as [<- | H]; [vm_compute; split; discriminate|]).
  destruct H.
Qed.

Lemma monthStart_range m : 0 <= m <= 11 -> 0 <= JsDate.monthStart false m <= 334.
Proof.
  intros R.
  pose proof (range_check (fun m => (0 <=? JsDate.monthStart false m)
                                   && (JsDate.monthStart false m <=? 334)) 0 12
                          ltac:(vm_compute; reflexivity) m ltac:(lia)) as C.
  cbv beta in C. apply andb_prop in C. destruct C as [A B].
  apply Z.leb_le in A, B. lia.
Qed.

(** X8.  A date string with the date head, the year 2019, a month name of
    the table and a day of the month from 1 to 31 has a day index from 2
    (1 January) to 366 (31 December), hence a column from 0 to 52 and a row
    from 0 to 6. *)
Theorem valid_date_index s :
  dayHead s = true ->
  firstn 4 (skipn 11 s) = u16 "2019" ->
  In (firstn 3 (skipn 4 s)) MON ->
  1 <= toNumber (firstn 2 (skipn 8 s)) <= 31 ->
  exists i, dayIndex (gridStartUTC 2019) s = Ok i /\ 2 <= i <= 366 /\
            0 <= col (toColRow i) <= 52 /\ 0 <= row (toColRow i) <= 6.
Proof.
  intros H Y M D. unfold dayIndex, bind. rewrite parseFullDayUTC_spec, H, Y.
  pose proof (indexOf_MON _ M) as Rm.
  set (mi := indexOf (firstn 3 (skipn 4 s)) MON) in *.
  set (dd := toNumber (firstn 2 (skipn 8 s))) in *.
  pose proof (monthStart_range mi Rm) as Rs.
  change (toNumber (u16 "2019")) with 2019.
  assert (U : JsDate.UTC 2019 mi dd = (17897 + JsDate.monthStart false mi + dd - 1) * 86400000).
  { unfold JsDate.UTC, JsDate.MakeDay, JsDate.msPerDay. cbv zeta.
    change ((0 <=? 2019) && (2019 <=? 99)) with false. cbv iota.
    rewrite (Z.div_small mi 12) by lia. rewrite (Z.mod_small mi 12) by lia.
    change (2019 + 0) with 2019.
    change (JsDate.InLeapYear 2019) with false.
    change (JsDate.DayFromYear 2019) with 17897. reflexivity. }
  rewrite U. change (gridStartUTC 2019) with (17895 * 86400000).
  set (i := ((17897 + JsDate.monthStart false mi + dd - 1) * 86400000 - 17895 * 86400000) / 86400000).
  assert (Ei : i = JsDate.monthStart false mi + dd + 1).
  { subst i. replace ((17897 + JsDate.monthStart false mi + dd - 1) * 86400000 - 17895 * 86400000)
      with ((JsDate.monthStart false mi + dd + 1) * 86400000) by lia.
    apply Z.div_mul. lia. }
  exists i. split; [reflexivity|]. clearbody i.
  unfold toColRow. cbn [col row]. rewrite Z.rem_mod_nonneg by lia.
  split; [lia|]. Z.div_mod_to_equations. lia.
Qed.

(** 31 December 2019 has index 366. *)
Lemma valid_date_index_witness :
  dayIndex (gridStartUTC 2019) (u16 "Tue Dec 31 2019 00:00:00 GMT-0500 (EST)") = Ok 366.
Proof.
  destruct (valid_date_index (u16 "Tue Dec 31 2019 00:00:00 GMT-0500 (EST)"))
    as (i & E & _).
  - vm_compute. reflexivity.
  - vm_compute. reflexivity.
  - vm_compute. do 11 right. left. reflexivity.
  - vm_compute. split; discriminate.
  - rewrite E. vm_compute in E. injection E as <-. reflexivity.
Defined.

End WindowProperties.

(** ** Text, patterns and the sibling scripts *)

Section FurtherProperties.

Open Scope Z_scope.

Lemma Subseq_refl s : Subseq s s.
Proof. induction s; constructor; assumption. Qed.

Lemma Subseq_nil s : Subseq [] s.
Proof. induction s; constructor; assumption. Qed.

Lemma Subseq_trans a b : Subseq a b -> forall c, Subseq b c -> Subseq a c.
Proof.
  intros H c Hbc. revert a H. induction Hbc as [|x b c Hbc IH|x b c Hbc IH]; intros a H.
  - exact H.
  - inversion H; subst.
    + constructor. apply IH. assumption.
    + apply sub_drop. apply IH. assumption.
  - apply sub_drop. apply IH. exact H.
Qed.

Lemma Subseq_length a b : Subseq a b -> (List.length a <= List.length b)%nat.
Proof. induction 1; simpl; lia. Qed.

Lemma scan_deletes ml r : forall s skip prev,
  Subseq (flat_map (emit []) (scan ml r skip prev s)) s.
Proof.
  induction s as [|c s IH]; intros skip prev.
  - destruct skip; cbn [scan]; [|constructor].
    destruct (matchAt ml r prev []) as [[gs rest]|]; cbn; constructor.
  - destruct skip as [|n]; cbn [scan].
    + destruct (matchAt ml r prev (c :: s)) as [[gs rest]|].
      * cbn [flat_map emit app].
        destruct (List.length (c :: s) - List.length rest)%nat.
        -- cbn [flat_map emit app]. constructor. apply IH.
        -- apply sub_drop. apply IH.
      * cbn [flat_map emit app]. constructor. apply IH.
    + apply sub_drop. apply IH.
Qed.

(** X9.  The sanitizer only deletes: for every input, its output arises
    from the input by deleting code units, so it is never longer and holds
    nothing the input did not hold, in the same order. *)
Theorem sanitize_only_deletes s :
  Subseq (sanitize s) s /\ (List.length (sanitize s) <= List.length s)%nat.
Proof.
  assert (H : Subseq (sanitize s) s).
  { unfold sanitize. generalize dropPatterns. intros rs. revert s.
    induction rs as [|r rs IH]; intros s; cbn [fold_left].
    - apply Subseq_refl.
    - eapply Subseq_trans; [apply IH|]. apply scan_deletes. }
  split; [exact H | apply Subseq_length, H].
Qed.

Lemma rep_inv p k : forall s lo prev res,
  rep p lo prev s k = Some res ->
  exists pre s' prev',
    s = pre ++ s' /\ k prev' s' = Some res /\
    Forall (fun c => p c = true) pre /\ (lo <= List.length pre)%nat.
Proof.
  induction s as [|c s IH]; intros lo prev res H; cbn [rep] in H.
  - destruct lo; [|discriminate]. exists [], [], prev. repeat split; auto.
  - destruct (p c) eqn:Pc.
    + destruct (rep p (pred lo) (Some c) s k) as [x|] eqn:R.
      * injection H as <-. destruct (IH _ _ _ R) as (pre & s' & prev' & E & K & F & L).
        exists (c :: pre), s', prev'. subst s. repeat split; auto.
        cbn [List.length]. lia.
      * destruct lo; [|discriminate]. exists [], (c :: s), prev. repeat split; auto.
    + destruct lo; [|discriminate]. exists [], (c :: s), prev. repeat split; auto.
Qed.

Lemma strip_inv w : forall prev s prev' s',
  strip w prev s = Some (prev', s') -> s = w ++ s'.
Proof.
  induction w as [|a w IH]; intros prev s prev' s' H; cbn [strip] in H.
  - injection H as _ <-. reflexivity.
  - destruct s as [|c s]; [discriminate|].
    destruct (N.eqb c a) eqn:E; [|discriminate]. apply N.eqb_eq in E. subst c.
    cbn [app]. f_equal. eapply IH. exact H.
Qed.

Lemma firstn_consumed (pre s' : str) :
  firstn (List.length (pre ++ s') - List.length s') (pre ++ s') = pre.
Proof.
  rewrite length_app. replace (List.length pre + List.length s' - List.length s')%nat
    with (List.length pre) by lia.
  rewrite firstn_app, firstn_all, Nat.sub_diag. cbn [firstn]. apply app_nil_r.
Qed.

Lemma matcher_inv ml r : forall prev s gs k res,
  matcher ml r prev s gs k = Some res ->
  exists pre s' prev' caps,
    s = pre ++ s' /\ k prev' s' (gs ++ caps) = Some res /\ Caps r pre caps.
Proof.
  induction r as [|p|w|lo p| | |r1 IH1 r2 IH2|r1 IH1 r2 IH2|r1 IH1];
    intros prev s gs k res H; cbn [matcher] in H.
  - exists [], s, prev, []. rewrite app_nil_r. cbn. auto.
  - destruct s as [|c s]; [discriminate|]. destruct (p c) eqn:Pc; [|discriminate].
    exists [c], s, (Some c), []. rewrite app_nil_r. cbn. eauto 6.
  - destruct (strip w prev s) as [[prev' s']|] eqn:S; [|discriminate].
    apply strip_inv in S. exists w, s', prev', []. rewrite app_nil_r. cbn. auto.
  - apply rep_inv in H. destruct H as (pre & s' & prev' & E & K & F & L).
    exists pre, s', prev', []. rewrite app_nil_r. cbn. auto.
  - destruct (atLineStart ml prev); [|discriminate].
    exists [], s, prev, []. rewrite app_nil_r. cbn. auto.
  - destruct (atLineEnd ml s); [|discriminate].
    exists [], s, prev, []. rewrite app_nil_r. cbn. auto.
  - apply IH1 in H. destruct H as (p1 & s1 & prev1 & c1 & E1 & K1 & C1).
    apply IH2 in K1. destruct K1 as (p2 & s2 & prev2 & c2 & E2 & K2 & C2).
    exists (p1 ++ p2), s2, prev2, (c1 ++ c2). subst. rewrite <- !app_assoc in *.
    split; [reflexivity|]. split; [exact K2|]. cbn [Caps]. eauto 10.
  - destruct (matcher ml r1 prev s gs k) as [x|] eqn:M1.
    + injection H as <-. apply IH1 in M1. destruct M1 as (pre & s' & prev' & caps & E & K & C).
      exists pre, s', prev', caps. cbn [Caps]. auto.
    + apply IH2 in H. destruct H as (pre & s' & prev' & caps & E & K & C).
      exists pre, s', prev', caps. cbn [Caps]. auto.
  - apply IH1 in H. destruct H as (pre & s' & prev' & c1 & E & K & C).
    exists pre, s', prev', (c1 ++ [pre]). subst s. rewrite firstn_consumed in K.
    rewrite <- app_assoc in K. split; [reflexivity|]. split; [exact K|].
    cbn [Caps]. eauto.
Qed.

Lemma matchAt_inv ml r prev s gs rest :
  matchAt ml r prev s = Some (gs, rest) ->
  exists pre, s = pre ++ rest /\ Caps r pre gs.
Proof.
  unfold matchAt. intros H. apply matcher_inv in H.
  destruct H as (pre & s' & prev' & caps & E & K & C).
  injection K as <- <-. exists pre. auto.
Qed.

Lemma scan_hits ml r h : forall s skip prev,
  In (Hit h) (scan ml r skip prev s) -> Caps r (whole h) (groups h).
Proof.
  induction s as [|c s IH]; intros skip prev H.
  - destruct skip; cbn [scan] in H; [|destruct H].
    destruct (matchAt ml r prev []) as [[gs rest]|] eqn:M; [|destruct H].
    destruct H as [H | []]. injection H as <-. cbn [whole groups].
    apply matchAt_inv in M. destruct M as (pre & E & C).
    symmetry in E. apply app_eq_nil in E. destruct E as [-> ->]. exact C.
  - destruct skip as [|n]; cbn [scan] in H.
    + destruct (matchAt ml r prev (c :: s)) as [[gs rest]|] eqn:M.
      * destruct H as [H | H].
        -- apply matchAt_inv in M. destruct M as (pre & E & C).
           assert (W : firstn (List.length (c :: s) - List.length rest) (c :: s) = pre)
             by (rewrite E; apply firstn_consumed).
           rewrite W in H. injection H as <-. exact C.
        -- destruct (List.length (c :: s) - List.length rest)%nat.
           ++ destruct H as [H | H]; [discriminate|]. eapply IH, H.
           ++ eapply IH, H.
      * destruct H as [H | H]; [discriminate|]. eapply IH, H.
    + eapply IH, H.
Qed.

Ltac caps_destruct :=
  repeat match goal with
         | H : exists _, _ |- _ => destruct H
         | H : _ /\ _ |- _ => destruct H
         | H : _ \/ _ |- _ => destruct H
         end.

Lemma Caps_FULL_2019 a gs :
  Caps FULL_2019 a gs ->
  gs = [] /\
  firstn 4 (skipn 11 a) = u16 "2019" /\
  (37 <= List.length a)%nat /\
  dayHead a = sepsAreSpaces a.
Proof.
  intros H. unfold FULL_2019 in H.
  cbn [cat times repeat fold_right Caps] in H.
  caps_destruct. subst.
  change (u16 "2019") with [50; 48; 49; 57]%N.
  change (u16 ":") with [58]%N.
  change (u16 "GMT") with [71; 77; 84]%N.
  change (u16 "(") with [40]%N.
  change (u16 ")") with [41]%N.
  cbn [app firstn skipn dayHead sepsAreSpaces nth].
  repeat match goal with H : _ = true |- _ =>
    match type of H with
    | isUpper _ = true => rewrite H
    | isLower _ = true => rewrite H
    | isDigit _ = true => rewrite H
    end end.
  change (isDigit 50%N) with true. change (isDigit 48%N) with true.
  change (isDigit 49%N) with true. change (isDigit 57%N) with true.
  cbn [andb].
  repeat split; try reflexivity;
    cbn [List.length]; rewrite ?length_app; cbn [List.length].
  - match goal with H : (1 <= List.length ?x)%nat |- _ => revert H end. lia.
  - unfold sepsAreSpaces. cbn [nth]. rewrite !andb_true_r. reflexivity.
Qed.

Lemma In_flat_map_hit (ps : list piece) h :
  In h (flat_map (fun x => match x with Keep _ => [] | Hit h => [h] end) ps) -> In (Hit h) ps.
Proof.
  intros H. apply in_flat_map in H. destruct H as (x & I & Hx).
  destruct x as [c | h']; [destruct Hx|]. destruct Hx as [-> | []]. exact I.
Qed.

(** X10.  Every anchor the extractor returns carries the year 2019 at
    offset 11, has at least 37 code units, and has the date head the parser
    asks for exactly when its four separators before the time of day are
    plain spaces: the parser throws on an anchor if and only if one of them
    is other white space. *)
Theorem anchor_shape input a :
  In a (anchors input) ->
  firstn 4 (skipn 11 a) = u16 "2019" /\
  (37 <= List.length a)%nat /\
  dayHead a = sepsAreSpaces a /\
  ((exists e, parseFullDayUTC a = Throw e) <-> sepsAreSpaces a = false).
Proof.
  intros H. unfold anchors in H. apply in_map_iff in H. destruct H as (h & <- & H).
  unfold execAll in H. apply In_flat_map_hit in H. apply scan_hits in H.
  unfold msgRe in H. cbn [cat fold_right Caps] in H.
  caps_destruct; subst;
    match goal with C : Caps FULL_2019 _ _ |- _ => apply Caps_FULL_2019 in C;
      destruct C as (-> & Y & L & D) end;
    match goal with G : groups h = _ |- _ => unfold group; rewrite G; cbn [app pred nth] end;
    (split; [exact Y|]; split; [exact L|]; split; [exact D|];
     rewrite parseFullDayUTC_spec, D;
     destruct (sepsAreSpaces _); split; intros Q; try discriminate; try (destruct Q; discriminate);
     eauto).
Qed.

Lemma Ok_inj (A : Type) (x y : A) : Ok x = Ok y -> x = y.
Proof. intros Q. injection Q. auto. Qed.

(** X11.  Every match of the commit-line pattern has five groups that
    make up the whole match: [git], white space, [commit], white space,
    [--date='], then a run without a quote, then a quote, white space,
    [-m], white space and a quote, then a date of 2019, then a quote.  Its
    replacement, when the date parses, repeats the first, third and fifth
    group and puts the mapped date in place of the second and the fourth. *)
Theorem commit_hit_shape s skip prev h :
  In (Hit h) (scan false commitRe skip prev s) ->
  exists a anyDate b msgDate w1 w2 w3 w4,
    groups h = [a; anyDate; b; msgDate; u16 "'"] /\
    whole h = a ++ anyDate ++ b ++ msgDate ++ u16 "'" /\
    a = u16 "git" ++ w1 ++ u16 "commit" ++ w2 ++ u16 "--date='" /\
    b = u16 "'" ++ w3 ++ u16 "-m" ++ w4 ++ u16 "'" /\
    Forall (fun c => isSpace c = true) (w1 ++ w2 ++ w3 ++ w4) /\
    Forall (fun c => c <> 39%N) anyDate /\
    firstn 4 (skipn 11 msgDate) = u16 "2019" /\
    forall remap out,
      commitCallback remap h = Ok out ->
      exists mapped,
        remap msgDate = Ok mapped /\ out = a ++ mapped ++ b ++ mapped ++ u16 "'".
Proof.
  intros H. apply scan_hits in H.
  unfold commitRe in H. cbn [cat fold_right Caps] in H.
  caps_destruct; subst.
  match goal with C : Caps FULL_2019 _ _ |- _ => apply Caps_FULL_2019 in C;
    destruct C as (-> & Y & L & D) end.
  match goal with G : groups h = _ |- _ => cbn [app] in G; rename G into G' end.
  match goal with W : whole h = _ |- _ => rewrite ?app_nil_r in W; rename W into W' end.
  match goal with
  | G : groups h = [?a; ?any; ?b; ?msg; ?e] |- _ =>
      exists a, any, b, msg
  end.
  match goal with
  | F1 : Forall _ ?w1, F2 : Forall _ ?w2, F3 : Forall _ ?w3, F4 : Forall _ ?w4,
    G : groups h = [u16 "git" ++ ?w1 ++ _ ++ ?w2 ++ _; _; _ ++ ?w3 ++ _ ++ ?w4 ++ _; _; _] |- _ =>
      exists w1, w2, w3, w4
  end.
  rewrite ?app_nil_r in *.
  split; [exact G'|]. split; [rewrite W', <- ?app_assoc; reflexivity|].
  split; [rewrite <- ?app_assoc; reflexivity|]. split; [rewrite <- ?app_assoc; reflexivity|].
  split; [repeat (apply Forall_app; split); assumption|].
  split.
  { match goal with F : Forall (fun c => isNot 39%N c = true) _ |- _ =>
      eapply Forall_impl; [|exact F] end.
    cbv beta. intros c Hc E. subst c. discriminate. }
  split; [exact Y|].
  intros remap out C. unfold commitCallback, group, bind in C. rewrite G' in C.
  cbn [pred nth] in C.
  match type of C with context [remap ?m] => destruct (remap m) as [mapped|] eqn:R end;
    [|discriminate].
  apply Ok_inj in C. subst out. exists mapped. split; [reflexivity|].
  rewrite <- ?app_assoc. reflexivity.
Qed.

(** X12.  Every match of the echo-line pattern has three groups that make
    up the whole match: [echo], white space and a quote, then a date of
    2019, then a quote, [>>] and [foobar.txt] with optional white space;
    its replacement keeps the first and the third and puts the mapped date
    between them. *)
Theorem echo_hit_shape s skip prev h :
  In (Hit h) (scan false echoRe skip prev s) ->
  exists a date c w1 w2 w3,
    groups h = [a; date; c] /\
    whole h = a ++ date ++ c /\
    a = u16 "echo" ++ w1 ++ u16 "'" /\
    c = u16 "'" ++ w2 ++ u16 ">>" ++ w3 ++ u16 "foobar.txt" /\
    Forall (fun c => isSpace c = true) (w1 ++ w2 ++ w3) /\
    firstn 4 (skipn 11 date) = u16 "2019" /\
    forall remap out,
      echoCallback remap h = Ok out ->
      exists mapped, remap date = Ok mapped /\ out = a ++ mapped ++ c.
Proof.
  intros H. apply scan_hits in H.
  unfold echoRe in H. cbn [cat fold_right Caps] in H.
  caps_destruct; subst.
  match goal with C : Caps FULL_2019 _ _ |- _ => apply Caps_FULL_2019 in C;
    destruct C as (-> & Y & L & D) end.
  match goal with G : groups h = _ |- _ => cbn [app] in G; rename G into G' end.
  match goal with W : whole h = _ |- _ => rewrite ?app_nil_r in W; rename W into W' end.
  match goal with
  | G : groups h = [_ ++ ?w1 ++ _; ?date; _ ++ ?w2 ++ _ ++ ?w3 ++ _] |- _ =>
      exists (u16 "echo" ++ w1 ++ u16 "'"), date,
             (u16 "'" ++ w2 ++ u16 ">>" ++ w3 ++ u16 "foobar.txt"), w1, w2, w3
  end.
  rewrite ?app_nil_r in *.
  split; [exact G'|]. split; [rewrite W', <- ?app_assoc; reflexivity|].
  split; [reflexivity|]. split; [reflexivity|].
  split; [repeat (apply Forall_app; split); assumption|].
  split; [exact Y|].
  intros remap out C. unfold echoCallback, group, bind in C. rewrite G' in C.
  cbn [pred nth] in C.
  match type of C with context [remap ?m] => destruct (remap m) as [mapped|] eqn:R end;
    [|discriminate].
  apply Ok_inj in C. subst out. exists mapped. split; reflexivity.
Qed.

(** X14.  In the column-aligned script no anchor is mapped left of column
    0.  A drawing of at most 52 columns ends exactly in column 51, the
    current week; a wider one starts in column 0 and runs past column 51. *)
Theorem colalign_bounds p0 ps p :
  In p (p0 :: ps) ->
  let minCol := mathMin (col p0) (map col ps) in
  let maxCol := mathMax (col p0) (map col ps) in
  let s := ColAlign.planShift p0 ps in
  0 <= col p + s /\
  (maxCol - minCol + 1 <= 52 -> maxCol + s = ColAlign.targetMaxCol /\ col p + s <= 51) /\
  (52 < maxCol - minCol + 1 -> minCol + s = 0 /\ ColAlign.targetMaxCol < maxCol + s).
Proof.
  intros I minCol maxCol s. pose proof (col_between p0 ps p I) as B.
  fold minCol maxCol in B. subst s. unfold ColAlign.planShift. fold minCol maxCol.
  clearbody minCol maxCol.
  unfold ColAlign.finalShiftCols, ColAlign.targetMaxCol. cbv zeta.
  destruct (minCol + (51 - maxCol) <? 0) eqn:E;
    [apply Z.ltb_lt in E | apply Z.ltb_ge in E]; repeat split; intros; lia.
Qed.

(** The new days of the centred script, by offset from the earliest day. *)
Lemma centered_offsets todayUTC artDays offset :
  1 <= artDays -> 0 <= offset < artDays ->
  let ws := Centered.windowStart todayUTC in
  let a := Centered.anchorEarliest ws artDays in
  a + offset * Centered.DAY <= weekStartUTC todayUTC - Centered.DAY /\
  a + offset * Centered.DAY < todayUTC /\
  (artDays <= Centered.WINDOW_DAYS ->
     ws <= a + offset * Centered.DAY /\
     a = ws + ((Centered.WINDOW_DAYS - artDays) / 2) * Centered.DAY) /\
  (Centered.WINDOW_DAYS < artDays ->
     a + (artDays - 1) * Centered.DAY = weekStartUTC todayUTC - Centered.DAY).
Proof.
  intros A O ws a.
  destruct (weekStart_props todayUTC) as (_ & R & _).
  subst a ws. unfold Centered.windowStart, Centered.anchorEarliest,
    Centered.WINDOW_DAYS, Centered.WINDOW_WEEKS, Centered.DAY in *. cbv zeta.
  set (w := weekStartUTC todayUTC) in *. clearbody w.
  change (52 * 7) with 364.
  assert (Q : artDays < 364 ->
              0 <= (364 - artDays) / 2 /\ 2 * ((364 - artDays) / 2) <= 364 - artDays)
    by (intros; Z.div_mod_to_equations; lia).
  repeat match goal with
         | |- context [if ?c then _ else _] =>
             lazymatch c with
             | context [if _ then _ else _] => fail
             | _ => destruct c eqn:?
             end
         end;
    repeat match goal with
           | H : (_ <? _) = true |- _ => apply Z.ltb_lt in H
           | H : (_ <? _) = false |- _ => apply Z.ltb_ge in H
           | H : (_ >? _) = true |- _ => apply Z.gtb_lt in H
           | H : (_ >? _) = false |- _ => rewrite Z.gtb_ltb in H; apply Z.ltb_ge in H
           | H : (_ >=? _) = true |- _ => rewrite Z.geb_leb in H; apply Z.leb_le in H
           | H : (_ >=? _) = false |- _ => rewrite Z.geb_leb in H; apply Z.leb_gt in H
           end;
    try (specialize (Q ltac:(assumption)));
    repeat split; intros; Z.div_mod_to_equations; lia.
Qed.

Lemma dayHead_length s : dayHead s = true -> exists h t, s = h ++ t /\ List.length h = 16%nat.
Proof.
  intros H.
  do 16 (destruct s as [|? s]; [discriminate|]).
  eexists [_;_;_;_;_;_;_;_;_;_;_;_;_;_;_;_], s. split; reflexivity.
Qed.

(** X13.  The parser reads month, day and year only: two strings with the
    date head that agree on the eleven code units from offset 4 (month
    name, day, year) parse to the same day, whatever their weekday name,
    time of day, offset and zone. *)
Theorem parse_reads_date_only s1 s2 :
  dayHead s1 = true -> dayHead s2 = true ->
  firstn 11 (skipn 4 s1) = firstn 11 (skipn 4 s2) ->
  parseFullDayUTC s1 = parseFullDayUTC s2.
Proof.
  intros H1 H2 E. rewrite !parseFullDayUTC_spec, H1, H2.
  destruct (dayHead_length s1 H1) as (h1 & t1 & -> & L1).
  destruct (dayHead_length s2 H2) as (h2 & t2 & -> & L2).
  do 16 (destruct h1 as [|? h1]; [discriminate|]). destruct h1; [|discriminate].
  do 16 (destruct h2 as [|? h2]; [discriminate|]). destruct h2; [|discriminate].
  cbn [app firstn skipn] in *. injection E as -> -> -> -> -> -> -> -> -> -> ->.
  reflexivity.
Qed.

(** Same date, other weekday name and tail. *)
Lemma parse_reads_date_only_witness :
  parseFullDayUTC (u16 "Thu Jan 24 2019 00:00:00 GMT-0500 (Eastern Standard Time)")
  = parseFullDayUTC (u16 "Xyz Jan 24 2019 anything").
Proof.
  apply parse_reads_date_only; vm_compute; reflexivity.
Defined.

(** X16.  In the plain rolling script the earliest day keeps its place at
    the new base, which is never before the start of the rolling window.
    If the art fits between that start and today, its latest day is mapped
    to today and no day is mapped after today; if it is longer, the earliest
    day is mapped to the start of the window and the latest day falls after
    today. *)
Theorem rolling_ends_today todayUTC thisWeekSun span baseOld :
  0 <= span ->
  let rollingStart := thisWeekSun - 52 * 7 * 86400000 in
  let nb := Rolling.newBase todayUTC thisWeekSun span in
  let last := Rolling.newDayUtc baseOld nb (baseOld + span * 86400000) in
  Rolling.newDayUtc baseOld nb baseOld = nb /\
  rollingStart <= nb /\
  (rollingStart + span * 86400000 <= todayUTC ->
     last = todayUTC /\
     forall oldDay, baseOld <= oldDay <= baseOld + span * 86400000 ->
                    Rolling.newDayUtc baseOld nb oldDay <= todayUTC) /\
  (todayUTC < rollingStart + span * 86400000 ->
     nb = rollingStart /\ todayUTC < last).
Proof.
  intros S rollingStart nb last. subst last nb rollingStart.
  unfold Rolling.newDayUtc, Rolling.newBase. cbv zeta.
  replace (baseOld - baseOld) with 0 by lia.
  replace (baseOld + span * 86400000 - baseOld) with (span * 86400000) by lia.
  rewrite Z.div_mul by lia. rewrite Z.div_0_l by lia.
  set (m := Z.max _ _).
  assert (M : m = Z.max (todayUTC - span * 86400000) (thisWeekSun - 52 * 7 * 86400000))
    by reflexivity.
  clearbody m.
  repeat split; intros; try lia.
  assert ((oldDay - baseOld) / 86400000 <= span).
  { apply Z.div_le_upper_bound; lia. }
  nia.
Qed.

(** The pieces of a scan, put together again. *)
Lemma scan_reassembles ml r : forall s skip prev,
  flat_map original (scan ml r skip prev s) = skipn skip s.
Proof.
  induction s as [|c s IH]; intros skip prev.
  - destruct skip; cbn [scan]; [|reflexivity].
    destruct (matchAt ml r prev []) as [[gs rest]|]; reflexivity.
  - destruct skip as [|n]; cbn [scan skipn].
    + destruct (matchAt ml r prev (c :: s)) as [[gs rest]|].
      * cbn [flat_map original whole].
        destruct (List.length (c :: s) - List.length rest)%nat as [|n'].
        -- cbn [firstn app flat_map original]. rewrite IH. reflexivity.
        -- rewrite IH. cbn [firstn app]. f_equal. apply firstn_skipn.
      * cbn [flat_map original app]. rewrite IH. reflexivity.
    + apply IH.
Qed.

Lemma substitute_segments f : forall ps out,
  substitute f ps = Ok out ->
  exists segs : list (str * str),
    flat_map original ps = flat_map fst segs /\ out = flat_map snd segs /\
    Forall (fun seg =>
              fst seg = snd seg \/
              exists h, In (Hit h) ps /\ fst seg = whole h /\ f h = Ok (snd seg)) segs.
Proof.
  induction ps as [|[c | h] ps IH]; intros out H; cbn [substitute] in H.
  - apply Ok_inj in H. subst out. exists []. repeat split. constructor.
  - unfold bind in H. destruct (substitute f ps) as [o|] eqn:S; [|discriminate].
    apply Ok_inj in H. subst out.
    destruct (IH o eq_refl) as (segs & E1 & E2 & F).
    exists (([c], [c]) :: segs). cbn [flat_map fst snd original app].
    split; [congruence|]. split; [congruence|].
    constructor; [left; reflexivity|].
    eapply Forall_impl; [|exact F]. cbv beta. intros seg [Q | (h & I & Q)];
      [left; exact Q | right; exists h; split; [right; exact I | exact Q]].
  - unfold bind in H. destruct (f h) as [w|] eqn:Fh; [|discriminate].
    destruct (substitute f ps) as [o|] eqn:S; [|discriminate].
    apply Ok_inj in H. subst out.
    destruct (IH o eq_refl) as (segs & E1 & E2 & F).
    exists ((whole h, w) :: segs). cbn [flat_map fst snd original].
    split; [congruence|]. split; [congruence|].
    constructor; [right; exists h; split; [left; reflexivity | split; [reflexivity | exact Fh]]|].
    eapply Forall_impl; [|exact F]. cbv beta. intros seg [Q | (h' & I & Q)];
      [left; exact Q | right; exists h'; split; [right; exact I | exact Q]].
Qed.

(** X17.  A replacement with a callback changes matches only: input and
    output can be cut into the same number of segments such that each pair
    is either equal or is a match of the pattern and what the callback
    returned for it.  This is what the two passes of the rewriter
    (lines 235 and 242) do to the text. *)
Theorem replaceBy_keeps_rest ml r f s out :
  replaceBy ml r f s = Ok out ->
  exists segs : list (str * str),
    s = flat_map fst segs /\ out = flat_map snd segs /\
    Forall (fun seg =>
              fst seg = snd seg \/
              exists h, In (Hit h) (scan ml r 0 None s) /\
                        fst seg = whole h /\ f h = Ok (snd seg)) segs.
Proof.
  intros H. apply substitute_segments in H. destruct H as (segs & E1 & E2 & F).
  rewrite scan_reassembles in E1. exists segs. auto.
Qed.

(** X15.  The script that centres by days never maps a day of the art
    into the current week or later: every new day is at or before the
    Saturday that precedes the Sunday of the current week, hence before
    today.  Art of at most 364 days is centred inside the window, with half
    of the free days, rounded down, before it; longer art ends on that
    Saturday and starts before the window. *)
Theorem centered_never_future todayUTC artDays baseEarliest oldDay :
  1 <= artDays ->
  baseEarliest <= oldDay < baseEarliest + artDays * Centered.DAY ->
  let ws := Centered.windowStart todayUTC in
  let a := Centered.anchorEarliest ws artDays in
  let new := Centered.newDay baseEarliest a oldDay in
  new <= weekStartUTC todayUTC - Centered.DAY /\
  new < todayUTC /\
  (artDays <= Centered.WINDOW_DAYS ->
     ws <= new /\
     a = ws + ((Centered.WINDOW_DAYS - artDays) / 2) * Centered.DAY) /\
  (Centered.WINDOW_DAYS < artDays ->
     Centered.newDay baseEarliest a (baseEarliest + (artDays - 1) * Centered.DAY)
     = weekStartUTC todayUTC - Centered.DAY).
Proof.
  intros A R ws a new.
  assert (O : 0 <= (oldDay - baseEarliest) / Centered.DAY < artDays).
  { unfold Centered.DAY in *. split.
    - apply Z.div_pos; lia.
    - apply Z.div_lt_upper_bound; lia. }
  destruct (centered_offsets todayUTC artDays _ A O) as (H1 & H2 & H3 & H4).
  cbv zeta in H1, H2, H3, H4. fold ws a in H1, H2, H3, H4.
  subst new. unfold Centered.newDay. cbv zeta.
  split; [exact H1|]. split; [exact H2|]. split; [exact H3|].
  intros W. specialize (H4 W). rewrite <- H4. f_equal. f_equal.
  replace (baseEarliest + (artDays - 1) * Centered.DAY - baseEarliest)
    with ((artDays - 1) * Centered.DAY) by lia.
  apply Z.div_mul. unfold Centered.DAY. lia.
Qed.

(** Art of 100 days, seen on Saturday 7 November 2026: its 60th day. *)
Lemma centered_never_future_witness :
  let new := Centered.newDay 0 (Centered.anchorEarliest (Centered.windowStart 1794009600000) 100)
                             (59 * 86400000) in
  new < 1794009600000 /\ Centered.windowStart 1794009600000 <= new.
Proof.
  cbv zeta.
  destruct (centered_never_future 1794009600000 100 0 (59 * 86400000)) as (_ & B & C & _).
  - lia.
  - unfold Centered.DAY. lia.
  - cbv zeta in B, C. split; [exact B|]. apply C. vm_compute. discriminate.
Defined.

(** Anchors in columns 3, 5 and 8. *)
Lemma colalign_bounds_witness :
  let p0 := {| col := 3; row := 6 |} in
  let ps := [ {| col := 5; row := 1 |}; {| col := 8; row := 0 |} ] in
  0 <= 5 + ColAlign.planShift p0 ps /\ 8 + ColAlign.planShift p0 ps = 51.
Proof.
  cbv zeta.
  destruct (colalign_bounds {| col := 3; row := 6 |}
              [ {| col := 5; row := 1 |}; {| col := 8; row := 0 |} ]
              {| col := 5; row := 1 |}) as (A & B & _).
  - right. left. reflexivity.
  - cbv zeta in A, B. split; [exact A|].
    destruct B as [B _]; [vm_compute; discriminate | exact B].
Defined.

(** Art of 100 days with today a Saturday. *)
Lemma rolling_ends_today_witness :
  Rolling.newDayUtc 0 (Rolling.newBase 1794009600000 1793491200000 99) (99 * 86400000)
  = 1794009600000.
Proof.
  destruct (rolling_ends_today 1794009600000 1793491200000 99 0) as (_ & _ & C & _).
  - lia.
  - cbv zeta in C. destruct C as [C _]; [lia | exact C].
Defined.

(** An anchor whose weekday is followed by a tab. *)
Lemma anchor_shape_witness :
  let bad := u16 ("Thu" ++ tab ++ "Jan 24 2019 00:00:00 GMT-0500 (EST)") in
  let text := u16 "git commit --date='x' -m '" ++ bad ++ u16 "'" in
  anchors text = [bad] /\ sepsAreSpaces bad = false /\
  exists e, parseFullDayUTC bad = Throw e.
Proof.
  intros bad text.
  assert (A : anchors text = [bad]) by (vm_compute; reflexivity).
  split; [exact A|].
  destruct (anchor_shape text bad) as (_ & _ & _ & P).
  - rewrite A. left. reflexivity.
  - assert (S : sepsAreSpaces bad = false) by (vm_compute; reflexivity).
    split; [exact S|]. apply P. exact S.
Defined.

(** The commit line of the scenario. *)
Lemma commit_hit_shape_witness :
  let line := u16 "git commit --date='x' -m 'Mon Jan 07 2019 00:00:00 GMT-0500 (EST)'" in
  exists h, scan false commitRe 0 None line = [Hit h] /\
            List.length (groups h) = 5%nat /\ whole h = line.
Proof.
  intros line.
  destruct (scan false commitRe 0 None line) as [|[c | h] [|x rest]] eqn:S;
    try (vm_compute in S; discriminate).
  exists h. split; [reflexivity|].
  destruct (commit_hit_shape line 0 None h) as (a & y & b & m & w1 & w2 & w3 & w4 & G & W & _).
  - rewrite S. left. reflexivity.
  - split; [rewrite G; reflexivity|].
    vm_compute in S. injection S as <-. reflexivity.
Defined.

(** The echo line of the scenario. *)
Lemma echo_hit_shape_witness :
  let line := u16 "echo 'Mon Jan 07 2019 00:00:00 GMT-0500 (EST)' >> foobar.txt" in
  exists h, scan false echoRe 0 None line = [Hit h] /\
            List.length (groups h) = 3%nat /\ whole h = line.
Proof.
  intros line.
  destruct (scan false echoRe 0 None line) as [|[c | h] [|x rest]] eqn:S;
    try (vm_compute in S; discriminate).
  exists h. split; [reflexivity|].
  destruct (echo_hit_shape line 0 None h) as (a & d & c & w1 & w2 & w3 & G & W & _).
  - rewrite S. left. reflexivity.
  - split; [rewrite G; reflexivity|].
    vm_compute in S. injection S as <-. reflexivity.
Defined.

(** An echo line between two other lines. *)
Lemma replaceBy_keeps_rest_witness :
  let text := u16 ("a" ++ lf ++ "echo 'Mon Jan 07 2019 00:00:00 GMT-0500 (EST)' >> foobar.txt"
                   ++ lf ++ "b") in
  let remap := remapOne (gridStartUTC 2019) 25 1762041600000 in
  exists segs : list (str * str),
    text = flat_map fst segs /\
    u16 ("a" ++ lf ++ "echo 'Mon May 04 2026 12:00:00 GMT+0000 (UTC)' >> foobar.txt"
         ++ lf ++ "b") = flat_map snd segs.
Proof.
  intros text remap.
  destruct (replaceBy_keeps_rest false echoRe (echoCallback remap) text
              (u16 ("a" ++ lf ++ "echo 'Mon May 04 2026 12:00:00 GMT+0000 (UTC)' >> foobar.txt"
                    ++ lf ++ "b"))) as (segs & A & B & _).
  - vm_compute. reflexivity.
  - exists segs. split; assumption.
Defined.

End FurtherProperties.
